(** * sqlmq: the standard table adapter and the consumer of lovego/sqlmq

    A shallow embedding of [std_table.go] (the [stdTable] adapter and its
    [quote] helper) and of the consumer file ([Consume], [consume],
    [consumeOne], [handle], [markFail], [getWaitTime]).

    - Go strings are byte sequences: [string] (a list of [ascii]).
    - [time.Time] is the number of nanoseconds since the zero instant
      (January 1, year 1, UTC), so [IsZero] is a test against [0];
      [time.Duration] is a number of nanoseconds.  Both are [Z].
    - The statements the adapter formats are kept as records holding the
      values substituted for the verbs of each format string; a small
      row-level semantics of these statements stands for the database.
    - The dispatcher talks to its collaborators (table, transaction,
      logger, handler) through calls that are recorded in a trace, the
      collaborators' answers being inputs. *)

From Stdlib Require Import ZArith List String Ascii Lia Bool Sorting.Sorted.
From stdpp Require Import base gmap strings list.

Open Scope string_scope.
Open Scope list_scope.
Open Scope Z_scope.

Set Warnings "-register-all".

(** [String.append] reduces on a constructor-headed first argument. *)
#[local] Arguments String.append !_ _ / : simpl nomatch.

(** ** Go strings *)

Module GoStrings.

(** The byte ['\''] and the byte ['\000']. *)
Definition squote : ascii := "'"%char.
Definition nul : ascii := Ascii.zero.

(** [strings.Replace(s, old, new, -1)] for a non-empty [old]: the
    non-overlapping occurrences of [old], found from left to right, are
    replaced by [new].  [skip] counts the bytes of a matched occurrence
    that are still to be dropped. *)
Fixpoint replace_from (old new : string) (skip : nat) (s : string) : string :=
  match s with
  | EmptyString => EmptyString
  | String c s' =>
      match skip with
      | S k => replace_from old new k s'
      | O =>
          if String.prefix old s
          then new +:+ replace_from old new (Nat.pred (String.length old)) s'
          else String c (replace_from old new O s')
      end
  end.

(** Both call sites of this package pass a one-byte [old]; the empty
    pattern (which Go matches at rune boundaries) is not covered and is
    mapped to [s]. *)
Definition Replace (s old new : string) : string :=
  match old with
  | EmptyString => s
  | String _ _ => replace_from old new O s
  end.

(** [quote]: "quote a string, removing all zero byte('\000') in it." *)
Definition quote (s : string) : string :=
  let s := Replace s "'" "''" in
  let s := Replace s (String nul "") "" in
  "'" +:+ s +:+ "'".

(** The escaping in the words of the specification: every single quote
    is doubled, every NUL byte is removed, every other byte is kept. *)
Definition escape_byte (c : ascii) : string :=
  if Ascii.eqb c squote then "''"
  else if Ascii.eqb c nul then ""
  else String c "".

Fixpoint map_bytes (f : ascii -> string) (s : string) : string :=
  match s with
  | EmptyString => EmptyString
  | String c s' => f c +:+ map_bytes f s'
  end.

Definition escape (s : string) : string := map_bytes escape_byte s.

Definition quote_spec (s : string) : string := "'" +:+ escape s +:+ "'".

(** The string with its NUL bytes removed. *)
Fixpoint strip_nul (s : string) : string :=
  match s with
  | EmptyString => EmptyString
  | String c s' => if Ascii.eqb c nul then strip_nul s' else String c (strip_nul s')
  end.

(** How the database reads a string literal (standard conforming strings:
    the backslash is an ordinary byte): the body of a literal is read
    byte by byte, two single quotes standing for one; a single quote that
    is not doubled ends the literal too early. *)
Fixpoint unquote_body (s : string) : option string :=
  match s with
  | EmptyString => None
  | String c s' =>
      if Ascii.eqb c squote then
        match s' with
        | EmptyString => Some EmptyString
        | String d s'' =>
            if Ascii.eqb d squote
            then option_map (String squote) (unquote_body s'')
            else None
        end
      else option_map (String c) (unquote_body s')
  end.

Definition unquote (lit : string) : option string :=
  match lit with
  | EmptyString => None
  | String c body => if Ascii.eqb c squote then unquote_body body else None
  end.

(** How often the byte [c] occurs in [s]. *)
Fixpoint count_byte (c : ascii) (s : string) : nat :=
  match s with
  | EmptyString => O
  | String d s' => (if Ascii.eqb d c then 1 else 0) + count_byte c s'
  end.

End GoStrings.

(** ** Go time *)

Module GoTime.

(** A [time.Time] is an instant, counted in nanoseconds from the zero
    instant; a [time.Duration] is an [int64] count of nanoseconds. *)
Abbreviation Time := Z (only parsing).
Abbreviation Duration := Z (only parsing).

Definition Millisecond : Duration := 1000000.
Definition Second : Duration := 1000 * Millisecond.
Definition Minute : Duration := 60 * Second.

Definition minDuration : Duration := - 2 ^ 63.
Definition maxDuration : Duration := 2 ^ 63 - 1.

Definition IsZero (t : Time) : bool := t =? 0.

(** [t.Add(d)], for instants whose seconds fit [int64] with room. *)
Definition Add (t : Time) (d : Duration) : Time := t + d.

(** [t.Sub(u)] saturates at the least and the greatest duration. *)
Definition Sub (t u : Time) : Duration :=
  Z.max minDuration (Z.min maxDuration (t - u)).

(** [time.Until(t)] with [now] the reading of the clock. *)
Definition Until (now t : Time) : Duration := Sub t now.

(** A [timestamptz]: microseconds from the zero instant. *)
Abbreviation Timestamp := Z (only parsing).

(** [t.Format(rfc3339Micro)], read back as a timestamp: the layout
    "2006-01-02T15:04:05.999999Z07:00" prints six fraction digits at
    most, so the digits below the microsecond are dropped. *)
Definition rfc3339Micro (t : Time) : Timestamp := t / 1000.

End GoTime.

(** ** The standard table *)

Module StdTable.
Import GoStrings GoTime.

Definition statusWait : string := "".
Definition statusDone : string := "done".
Definition statusGivenUp : string := "givenUp".

(** Go [error] values, by where they are made. *)
Inductive error : Type :=
| MarshalError (text : string)     (* encoding/json *)
| SqlError (text : string).        (* database/sql and its driver *)

(** What [json.Marshal] makes of a value. *)
Inductive marshaled : Type :=
| Encoded (json : string)
| Unsupported (text : string).

(** The dynamic value of the [Data interface{}] field: a [[]byte], or a
    value of any other type [V]. *)
Inductive payload (V : Type) : Type :=
| Bytes (b : string)
| Value (v : V).
Arguments Bytes {V} b.
Arguments Value {V} v.

Record StdMessage (V : Type) : Type := mkStdMessage {
  Id : Z;                  (* int64 *)
  Queue : string;
  Data : payload V;
  Status : string;
  CreatedAt : Time;
  TryCount : Z;            (* uint16 *)
  RetryAt : Time
}.
Arguments mkStdMessage {V}.
Arguments Id {V}. Arguments Queue {V}. Arguments Data {V}.
Arguments Status {V}. Arguments CreatedAt {V}. Arguments TryCount {V}.
Arguments RetryAt {V}.

(** A [Message] interface value: a [*StdMessage] (a pointer into the
    heap) or a value of another implementation. *)
Abbreviation loc := positive (only parsing).

Inductive Message : Type :=
| StdMessagePtr (p : loc)
| OtherMessage.

(** *** Rows, statements and their effect *)

Record Row : Type := mkRow {
  id : Z;
  queue : string;
  status : string;
  created_at : Timestamp;
  try_count : Z;
  retry_at : Timestamp;
  data : string
}.

(** A table of the database: its rows, the next value of the [bigserial]
    sequence of [id], and the ids of the rows that other transactions
    hold locked. *)
Record Relation : Type := mkRelation {
  rows : list Row;
  next_id : Z;
  locked : list Z
}.

Inductive SetClause : Type :=
| SetStatus (lit : string)          (* status = <literal> *)
| SetTryCountPlusOne                (* try_count = try_count + 1 *)
| SetRetryAt (ts : Timestamp).      (* retry_at = '<timestamp>' *)

Inductive OrderKey : Type := ByRetryAt | ById.

Record UpdateStmt : Type := mkUpdate {
  upd_table : string;
  upd_set : list SetClause;
  upd_where_id : Z                   (* WHERE id = %d *)
}.

Record InsertStmt : Type := mkInsert {
  ins_table : string;
  ins_queue : string;                (* the three quoted literals *)
  ins_data : string;
  ins_status : string;
  ins_created_at : Timestamp;
  ins_try_count : Z;
  ins_retry_at : Timestamp
}.

Record SelectStmt : Type := mkSelect {
  sel_from : string;
  sel_queue_in : list string;        (* queue IN (<literals>) *)
  sel_status : string;               (* status = <literal> *)
  sel_order_by : list OrderKey;
  sel_limit : nat;
  sel_skip_locked : bool             (* FOR UPDATE SKIP LOCKED *)
}.

(** What the column types of the schema accept.  [try_count] is a
    [smallint]; [data] is a [jsonb], and which texts are JSON is for
    the database to say. *)
Definition smallint_ok (n : Z) : bool := (-32768 <=? n) && (n <=? 32767).

Class JsonbInput : Type := jsonb_accepts : string -> bool.

(** The effect of the SET list on one row; [old] is the row as it was,
    which is what the right-hand sides read.  A literal the database
    cannot read makes the statement fail, and so does a [try_count]
    that leaves the range of [smallint]. *)
Definition set_effect (c : SetClause) : option (Row -> Row -> option Row) :=
  match c with
  | SetStatus lit =>
      s ← unquote lit;
      Some (fun _ r => Some (mkRow (id r) (queue r) s (created_at r) (try_count r)
                                   (retry_at r) (data r)))
  | SetTryCountPlusOne =>
      Some (fun old r =>
              if smallint_ok (try_count old + 1)
              then Some (mkRow (id r) (queue r) (status r) (created_at r)
                               (try_count old + 1) (retry_at r) (data r))
              else None)
  | SetRetryAt ts =>
      Some (fun _ r => Some (mkRow (id r) (queue r) (status r) (created_at r)
                                   (try_count r) ts (data r)))
  end.

Fixpoint update_effect (cs : list SetClause) : option (Row -> Row -> option Row) :=
  match cs with
  | [] => Some (fun _ r => Some r)
  | c :: cs' =>
      f ← set_effect c;
      g ← update_effect cs';
      Some (fun old r => match f old r with
                         | Some r' => g old r'
                         | None => None
                         end)
  end.

(** The rows whose [id] is [k] rewritten by [f]; one row that cannot be
    rewritten fails the whole statement. *)
Fixpoint rewrite_rows (k : Z) (f : Row -> option Row) (l : list Row)
    : option (list Row) :=
  match l with
  | [] => Some []
  | r :: l' =>
      r' ← (if id r =? k then f r else Some r);
      l'' ← rewrite_rows k f l';
      Some (r' :: l'')
  end.

(** UPDATE ... SET ... WHERE id = k: every row whose [id] is [k] is
    rewritten, the others are left alone; a statement that fails changes
    nothing. *)
Definition exec_update (u : UpdateStmt) (rel : Relation) : option Relation :=
  f ← update_effect (upd_set u);
  rows' ← rewrite_rows (upd_where_id u) (fun r => f r r) (rows rel);
  Some (mkRelation rows' (next_id rel) (locked rel)).

(** INSERT: one new row, its [id] drawn from the sequence, if the
    columns accept its values. *)
Definition exec_insert {jsonb : JsonbInput} (i : InsertStmt) (rel : Relation)
    : option Relation :=
  q ← unquote (ins_queue i);
  d ← unquote (ins_data i);
  s ← unquote (ins_status i);
  if smallint_ok (ins_try_count i) && jsonb_accepts d
  then Some (mkRelation
               (rows rel ++ [mkRow (next_id rel) q s (ins_created_at i)
                                   (ins_try_count i) (ins_retry_at i) d])
               (next_id rel + 1) (locked rel))
  else None.

Definition string_in (s : string) (l : list string) : bool :=
  existsb (String.eqb s) l.

Definition Z_in (k : Z) (l : list Z) : bool := existsb (Z.eqb k) l.

Fixpoint unquote_all (lits : list string) : option (list string) :=
  match lits with
  | [] => Some []
  | lit :: lits' =>
      s ← unquote lit;
      l ← unquote_all lits';
      Some (s :: l)
  end.

(** The rows the WHERE clause of a SELECT keeps; with SKIP LOCKED the
    rows locked by other transactions are passed over.  An empty IN list
    is a syntax error. *)
Definition candidates (s : SelectStmt) (rel : Relation) : option (list Row) :=
  qs ← unquote_all (sel_queue_in s);
  st ← unquote (sel_status s);
  match qs with
  | [] => None
  | _ :: _ =>
      Some (List.filter (fun r => string_in (queue r) qs
                             && String.eqb (status r) st
                             && negb (sel_skip_locked s && Z_in (id r) (locked rel)))
                   (rows rel))
  end.

Definition order_key (k : OrderKey) (r : Row) : Z :=
  match k with
  | ByRetryAt => retry_at r
  | ById => id r
  end.

(** ORDER BY compares the keys from left to right; rows that agree on
    every key are peers, and their order is not determined. *)
Fixpoint order_cmp (ks : list OrderKey) (r1 r2 : Row) : comparison :=
  match ks with
  | [] => Eq
  | k :: ks' =>
      match order_key k r1 ?= order_key k r2 with
      | Eq => order_cmp ks' r1 r2
      | c => c
      end
  end.

Definition not_after (ks : list OrderKey) (r1 r2 : Row) : bool :=
  match order_cmp ks r1 r2 with
  | Gt => false
  | _ => true
  end.

(** The rows that may come first under ORDER BY [ks]. *)
Definition first_rows (ks : list OrderKey) (cands : list Row) : list Row :=
  List.filter (fun r => forallb (not_after ks r) cands) cands.

(** The rows one of which a SELECT ... ORDER BY ... LIMIT n hands back
    as its first row ([None]: the statement fails). *)
Definition select_first (s : SelectStmt) (rel : Relation) : option (list Row) :=
  cands ← candidates s rel;
  Some (match sel_limit s with
        | O => []
        | S _ => first_rows (sel_order_by s) cands
        end).

(** *** The adapter *)

Record stdTable : Type := mkStdTable {
  name : string;
  queues : list string;
  (* the cached text; [None] is the empty string *)
  earliestMessageSql : option SelectStmt
}.

Definition SetQueues (table : stdTable) (qs : list string) : stdTable :=
  mkStdTable (name table) qs None.

(** [sort.Strings]: ascending, bytes compared as unsigned numbers. *)
Fixpoint insert_sorted (s : string) (l : list string) : list string :=
  match l with
  | [] => [s]
  | x :: l' => if String.leb s x then s :: l else x :: insert_sorted s l'
  end.

Definition sort_Strings (l : list string) : list string :=
  foldr insert_sorted [] l.

(** ['%s'] around a string that holds no quote. *)
Definition in_quotes (s : string) : string := "'" +:+ s +:+ "'".

Definition getEarliestMessageSql (table : stdTable) : SelectStmt * stdTable :=
  match earliestMessageSql table with
  | None =>
      let queues := sort_Strings (map quote (queues table)) in
      let querySql :=
        mkSelect (name table) queues (in_quotes statusWait) [ByRetryAt] 1 true in
      (querySql, mkStdTable (name table) (StdTable.queues table) (Some querySql))
  | Some querySql => (querySql, table)
  end.

(** *** The operations, over the heap and the database *)

Inductive Stmt : Type :=
| SUpdate (u : UpdateStmt)
| SInsert (i : InsertStmt).

Definition stmt_table (s : Stmt) : string :=
  match s with
  | SUpdate u => upd_table u
  | SInsert i => ins_table i
  end.

Definition exec_stmt {jsonb : JsonbInput} (s : Stmt) (rel : Relation)
    : option Relation :=
  match s with
  | SUpdate u => exec_update u rel
  | SInsert i => exec_insert i rel
  end.

(** A statement runs on the table it names. *)
Definition run_stmt {jsonb : JsonbInput} (s : Stmt) (db : gmap string Relation)
    : option (gmap string Relation) :=
  rel ← db !! stmt_table s;
  rel' ← exec_stmt s rel;
  Some (<[stmt_table s := rel']> db).

Section Adapter.

Context {V : Type} {jsonb : JsonbInput}.
Variable json_Marshal : V -> marshaled.

(** The messages the pointers of the program point to, and the tables of
    the database. *)
Record World : Type := mkWorld {
  heap : gmap positive (StdMessage V);
  tables : gmap string Relation
}.

(** A call returns a value and leaves a world, or panics. *)
Inductive Outcome (A : Type) : Type :=
| Done (a : A) (w : World)
| Panicked.
Arguments Done {A} a w.
Arguments Panicked {A}.

Definition M (A : Type) : Type := World -> Outcome A.

Definition ret {A : Type} (a : A) : M A := fun w => Done a w.

Definition bind {A B : Type} (c : M A) (k : A -> M B) : M B :=
  fun w => match c w with
           | Done a w' => k a w'
           | Panicked => Panicked
           end.

Notation "x <- c ;; k" := (bind c (fun x => k))
  (at level 100, c at next level, right associativity).

Definition panic {A : Type} : M A := fun _ => Panicked.

(** [msg.( *StdMessage)]: panics on another implementation. *)
Definition as_StdMessage (msg : Message) : M loc :=
  match msg with
  | StdMessagePtr p => ret p
  | OtherMessage => panic
  end.

(** Reading through a pointer; a pointer to nothing is the nil pointer. *)
Definition load (p : loc) : M (StdMessage V) :=
  fun w => match heap w !! p with
           | Some m => Done m w
           | None => Panicked
           end.

Definition store (p : loc) (m : StdMessage V) : M unit :=
  fun w => Done tt (mkWorld (<[p := m]> (heap w)) (tables w)).

(** [Exec] on a transaction or a connection.  [fault] is the failure the
    driver reports for this call, if it reports one; otherwise the
    statement runs, and fails if the database rejects it. *)
Definition Exec (fault : option string) (s : Stmt) : M (option error) :=
  fun w =>
    match fault with
    | Some text => Done (Some (SqlError text)) w
    | None =>
        match run_stmt s (tables w) with
        | Some db' => Done None (mkWorld (heap w) db')
        | None => Done (Some (SqlError "rejected")) w
        end
    end.

Definition MarkSuccess (table : stdTable) (fault : option string) (now : Time)
    (msg : Message) : M (option error) :=
  p <- as_StdMessage msg ;;
  m <- load p ;;
  Exec fault (SUpdate (mkUpdate (name table)
    [SetStatus (in_quotes statusDone); SetTryCountPlusOne; SetRetryAt (rfc3339Micro now)]
    (Id m))).

Definition MarkRetry (table : stdTable) (fault : option string) (now : Time)
    (msg : Message) (retryAfter : Duration) : M (option error) :=
  p <- as_StdMessage msg ;;
  m <- load p ;;
  Exec fault (SUpdate (mkUpdate (name table)
    [SetTryCountPlusOne; SetRetryAt (rfc3339Micro (Add now retryAfter))]
    (Id m))).

Definition MarkGivenUp (table : stdTable) (fault : option string) (now : Time)
    (msg : Message) : M (option error) :=
  p <- as_StdMessage msg ;;
  m <- load p ;;
  Exec fault (SUpdate (mkUpdate (name table)
    [SetStatus (in_quotes statusGivenUp); SetTryCountPlusOne; SetRetryAt (rfc3339Micro now)]
    (Id m))).

Definition with_CreatedAt (m : StdMessage V) (t : Time) : StdMessage V :=
  mkStdMessage (Id m) (Queue m) (Data m) (Status m) t (TryCount m) (RetryAt m).

Definition with_RetryAt (m : StdMessage V) (t : Time) : StdMessage V :=
  mkStdMessage (Id m) (Queue m) (Data m) (Status m) (CreatedAt m) (TryCount m) t.

(** [m.Data.([]byte)], and [json.Marshal(m.Data)] when it is not one. *)
Definition jsonData_of (d : payload V) : string + error :=
  match d with
  | Bytes b => inl b
  | Value v =>
      match json_Marshal v with
      | Encoded data => inl data
      | Unsupported text => inr (MarshalError text)
      end
  end.

(** [now] is what [time.Now()] answers when [ProduceMessage] asks. *)
Definition ProduceMessage (table : stdTable) (fault : option string) (now : Time)
    (msg : Message) : M (option error) :=
  p <- as_StdMessage msg ;;
  m <- load p ;;
  match jsonData_of (Data m) with
  | inr err => ret (Some err)
  | inl jsonData =>
      _ <- (if IsZero (CreatedAt m) then store p (with_CreatedAt m now) else ret tt) ;;
      m <- load p ;;
      _ <- (if IsZero (RetryAt m) then store p (with_RetryAt m (CreatedAt m)) else ret tt) ;;
      m <- load p ;;
      Exec fault (SInsert (mkInsert (name table)
        (quote (Queue m)) (quote jsonData) (quote (Status m))
        (rfc3339Micro (CreatedAt m)) (TryCount m) (rfc3339Micro (RetryAt m))))
  end.

(** The message as the specification describes it after [Produce]: "if
    created_at is zero, set it to now; if retry_at is zero, set it to
    created_at". *)
Definition defaults_filled (m : StdMessage V) (now : Time) : StdMessage V :=
  let created := if IsZero (CreatedAt m) then now else CreatedAt m in
  let retry := if IsZero (RetryAt m) then created else RetryAt m in
  mkStdMessage (Id m) (Queue m) (Data m) (Status m) created (TryCount m) retry.

End Adapter.

Arguments Done {V A} a w.
Arguments Panicked {V A}.

(** *** The rest of the adapter *)

Section Claiming.

Context {V : Type} {jsonb : JsonbInput}.

Notation "x <- c ;; k" := (bind c (fun x => k))
  (at level 100, c at next level, right associativity).

(** The methods of [*StdMessage]. *)
Definition QueueName (m : StdMessage V) : string := Queue m.
Definition ConsumeAt (m : StdMessage V) : Time := RetryAt m.

(** CREATE TABLE IF NOT EXISTS: a table that is there is left as it is;
    a new one is empty and its [bigserial] starts at 1. *)
Definition create_if_absent (n : string) (db : gmap string Relation)
    : gmap string Relation :=
  match db !! n with
  | Some _ => db
  | None => <[n := mkRelation [] 1 []]> db
  end.

(** [StdTable(db, name)]: [log.Panic] when [Exec] fails. *)
Definition StdTable (fault : option string) (n : string) : M (V := V) stdTable :=
  fun w =>
    match fault with
    | Some _ => Panicked
    | None => Done (mkStdTable n [] None)
                   (mkWorld (heap w) (create_if_absent n (tables w)))
    end.

(** What [tx.QueryRow(querysql).Scan(...)] comes back with:
    [sql.ErrNoRows], another error, or the seven columns written into
    [row]. *)
Inductive scanned : Type :=
| NoRows
| ScanFailed (text : string)
| Scanned (row : StdMessage V).

(** [&row]: a cell of the heap that no pointer reaches yet. *)
Definition alloc (m : StdMessage V) : M loc :=
  fun w =>
    let p := fresh (dom (heap w)) in
    Done p (mkWorld (<[p := m]> (heap w)) (tables w)).

(** [EarliestMessage]; [answer] is what the driver makes of the
    statement it is given.  The adapter comes back with its cache set.
    ([row] is only reachable when it is returned, so it is allocated
    there.) *)
Definition EarliestMessage (table : stdTable) (answer : SelectStmt -> scanned)
    : M (stdTable * (option Message * option error)) :=
  let (querysql, table') := getEarliestMessageSql table in
  match answer querysql with
  | NoRows => ret (table', (None, None))
  | ScanFailed text => ret (table', (None, Some (SqlError text)))
  | Scanned row =>
      p <- alloc row ;;
      ret (table', (Some (StdMessagePtr p), None))
  end.

(** One of the three marking operations. *)
Inductive Marking : Type :=
| AsSuccess
| AsRetry (retryAfter : Duration)
| AsGivenUp.

Definition mark (how : Marking) (table : stdTable) (fault : option string)
    (now : Time) (msg : Message) : M (V := V) (option error) :=
  match how with
  | AsSuccess => MarkSuccess table fault now msg
  | AsRetry retryAfter => MarkRetry table fault now msg retryAfter
  | AsGivenUp => MarkGivenUp table fault now msg
  end.

End Claiming.




(** The primary key: ids are pairwise distinct and below the next value
    of the sequence. *)
Definition keyed (rel : Relation) : Prop :=
  NoDup (map id (rows rel)) /\ Forall (fun r => id r < next_id rel) (rows rel).

(** A row has left the waiting state. *)
Definition settled (r : Row) : Prop := status r <> statusWait.

(** The row as the UPDATE of a marking operation leaves it. *)
Definition marked (how : Marking) (now : Time) (r : Row) : Row :=
  match how with
  | AsSuccess =>
      mkRow (id r) (queue r) statusDone (created_at r) (try_count r + 1)
            (rfc3339Micro now) (data r)
  | AsRetry retryAfter =>
      mkRow (id r) (queue r) (status r) (created_at r) (try_count r + 1)
            (rfc3339Micro (Add now retryAfter)) (data r)
  | AsGivenUp =>
      mkRow (id r) (queue r) statusGivenUp (created_at r) (try_count r + 1)
            (rfc3339Micro now) (data r)
  end.

End StdTable.

(** ** The consumer *)

Module Consumer.
Import GoTime.

(** A [DBOrTx]: the claim transaction [tx], or the pool [mq.DB]. *)
Inductive DBOrTx : Type := Tx | DB.

Section Engine.

(** [Message] holds the non-nil values of the [Message] interface, so an
    interface value is an [option Message]; [error] holds the non-nil
    [error] values. *)
Context {Message error : Type}.
Variable ConsumeAt : Message -> Time.

(** What a handler returns: [(retryAfter, canCommit, err)]. *)
Definition Handler : Type := option Message -> Duration * bool * option error.

(** The calls the consumer makes to its collaborators, in the order it
    makes them. *)
Inductive Event : Type :=
| EValidate
| EPanic (err : error)
| EGoClean                                   (* go mq.clean() *)
| ENoQueues                                  (* mq.noQueues() *)
| EBeginTx (txTimeout : Duration)            (* mq.DB.BeginTx under a deadline *)
| EEarliestMessage                           (* mq.Table.EarliestMessage(tx) *)
| EHandlerOf (msg : option Message)          (* mq.handlerOf(msg) *)
| EHandler (msg : option Message)            (* handler(ctx, tx, msg) *)
| EMarkSuccess (msg : option Message)        (* mq.Table.MarkSuccess(tx, msg) *)
| EMarkRetry (db : DBOrTx) (msg : option Message) (retryAfter : Duration)
| EMarkGivenUp (db : DBOrTx) (msg : option Message)
| ECommit                                    (* tx.Commit() *)
| ERollback                                  (* tx.Rollback() *)
| ECancel                                    (* cancel() *)
| ELogError (err : error)                    (* mq.Logger.Error(err) *)
| ETriggerConsume                            (* mq.TriggerConsume() *)
| ESleep (d : Duration)                      (* time.Sleep(d) *)
| EGo (body : list Event)                    (* go ...: a goroutine and what it does *)
| EWait (wait : Duration).                   (* select: the timer or consumeNotify *)

(** The engine's settings. *)
Record SqlMQ : Type := mkSqlMQ {
  IdleWait : Duration;
  ErrorWait : Duration;
  TxTimeout : Duration;
  CleanInterval : Duration
}.

(** What the collaborators answer during one [consumeOne]. *)
Record Answers : Type := mkAnswers {
  beginTx_err : option error;
  earliest : option Message * option error;
  clock : Time;                              (* time.Now() in time.Until *)
  handlerOf : option Message -> Handler + error;
  markSuccess : option error;
  markRetry : DBOrTx -> Duration -> option error;
  markGivenUp : DBOrTx -> option error;
  commit : option error;
  rollback : option error
}.

(** A computation that records its calls. *)
Definition W (A : Type) : Type := list Event * A.

Definition wret {A : Type} (a : A) : W A := ([], a).

Definition wbind {A B : Type} (c : W A) (k : A -> W B) : W B :=
  let (t1, a) := c in
  let (t2, b) := k a in
  (t1 ++ t2, b).

Definition emit (e : Event) : W unit := ([e], tt).

Notation "x <- c ;; k" := (wbind c (fun x => k))
  (at level 100, c at next level, right associativity).
Notation "c ;;; k" := (wbind c (fun _ => k))
  (at level 100, right associativity).

Definition log_if_error (err : option error) : W unit :=
  match err with
  | Some e => emit (ELogError e)
  | None => wret tt
  end.

Variable mq : SqlMQ.

Definition markFail (a : Answers) (db : DBOrTx) (msg : option Message)
    (retryAfter : Duration) : W unit :=
  if 0 <=? retryAfter then
    emit (EMarkRetry db msg retryAfter) ;;;
    match markRetry a db retryAfter with
    | Some err => emit (ELogError err)
    | None => emit ETriggerConsume
    end
  else
    emit (EMarkGivenUp db msg) ;;;
    log_if_error (markGivenUp a db).

(** The body of [handle] up to its [return]: the values of the named
    results [retryAfter] and [err] and of [canCommit] at that point. *)
Definition handle_body (a : Answers) (msg : option Message)
    : W (Duration * bool * option error) :=
  emit (EHandlerOf msg) ;;;
  match handlerOf a msg with
  | inl handler =>
      emit (EHandler msg) ;;;
      let '(retryAfter, canCommit, err) := handler msg in
      match err with
      | None =>
          emit (EMarkSuccess msg) ;;;
          wret (retryAfter, canCommit, markSuccess a)
      | Some _ =>
          if canCommit then
            markFail a Tx msg retryAfter ;;;
            wret (retryAfter, canCommit, err)
          else
            emit (EGo (fst (markFail a DB msg retryAfter))) ;;;
            emit (ESleep (100 * Millisecond)) ;;;
            wret (retryAfter, canCommit, err)
      end
  | inr err =>
      markFail a Tx msg Minute ;;;
      wret (0, true, Some err)
  end.

(** The deferred function of [handle]. *)
Definition handle_deferred (a : Answers) (canCommit : bool) (err : option error)
    : W (option error) :=
  err <- match err with
         | None => emit ECommit ;;; wret (commit a)
         | Some _ =>
             if canCommit
             then emit ECommit ;;; log_if_error (commit a) ;;; wret err
             else emit ERollback ;;; log_if_error (rollback a) ;;; wret err
         end ;;
  emit ECancel ;;;
  wret err.

Definition handle (a : Answers) (msg : option Message) : W (Duration * option error) :=
  r <- handle_body a msg ;;
  let '(retryAfter, canCommit, err) := r in
  err <- handle_deferred a canCommit err ;;
  wret (retryAfter, err).

Definition beginTx (a : Answers) : W (option error) :=
  let txTimeout := if TxTimeout mq <=? 0 then Minute else TxTimeout mq in
  emit (EBeginTx txTimeout) ;;;
  match beginTx_err a with
  | Some err => emit ECancel ;;; wret (Some err)
  | None => wret None
  end.

Definition is_nil {A : Type} (o : option A) : bool :=
  match o with
  | Some _ => false
  | None => true
  end.

(** [handle] runs in a goroutine started through the logger; its results
    stay there, and [consumeOne] returns its own [wait] and [err]. *)
Definition consumeOne (a : Answers) (idleWait : Duration) : W (Duration * option error) :=
  err <- beginTx a ;;
  match err with
  | Some _ => wret (0, err)
  | None =>
      emit EEarliestMessage ;;;
      let (msg, err) := earliest a in
      let wait := match msg with
                  | Some m => Until (clock a) (ConsumeAt m)
                  | None => idleWait
                  end in
      if (0 <? wait) || negb (is_nil err) then
        emit ERollback ;;;
        log_if_error (rollback a) ;;;
        emit ECancel ;;;
        wret (wait, err)
      else
        emit (EGo (fst (handle a msg))) ;;;
        wret (wait, err)
  end.

Definition getWaitTime : Duration * Duration :=
  (if IdleWait mq <=? 0 then Minute else IdleWait mq,
   if ErrorWait mq <=? 0 then Minute else ErrorWait mq).

(** What the world answers over a run of [Consume]: [validate]'s result,
    the answer to the [k]-th call of [noQueues], and the answers during
    the [k]-th [consumeOne]. *)
Record Feed : Type := mkFeed {
  validate : option error;
  noQueues : nat -> bool;
  attempt : nat -> Answers
}.

(** Where [Consume] stands. *)
Inductive Point : Type :=
| AtStart                      (* entering Consume *)
| AtConsume                    (* head of Consume's loop: wait = mq.consume(...) *)
| AtConsumeOne                 (* head of consume's loop: mq.consumeOne(idleWait) *)
| AtSelect (wait : Duration)   (* consume has returned wait *)
| Stopped.                     (* Consume is over *)

Record Run : Type := mkRun {
  point : Point;
  polls : nat;                 (* calls of noQueues so far *)
  attempts : nat;              (* calls of consumeOne so far *)
  trace : list Event
}.

(** One turn of [consume]'s loop on the result of [consumeOne]: the
    value [consume] returns, or [None] to go round again. *)
Definition consume_turn (idleWait errorWait : Duration) (r : Duration * option error)
    : W (option Duration) :=
  match r with
  | (_, Some err) => emit (ELogError err) ;;; wret (Some errorWait)
  | (wait, None) =>
      if 0 <? wait
      then wret (Some (if idleWait <? wait then idleWait else wait))
      else wret None
  end.

Definition Consume_step (f : Feed) (s : Run) : Run :=
  let (idleWait, errorWait) := getWaitTime in
  match point s with
  | AtStart =>
      match validate f with
      | Some err =>
          mkRun Stopped (polls s) (attempts s) (trace s ++ [EValidate; EPanic err])
      | None =>
          mkRun AtConsume (polls s) (attempts s)
                (trace s ++ EValidate :: (if 0 <? CleanInterval mq then [EGoClean] else []))
      end
  | AtConsume =>
      if noQueues f (polls s)
      then mkRun (AtSelect idleWait) (S (polls s)) (attempts s) (trace s ++ [ENoQueues])
      else mkRun AtConsumeOne (S (polls s)) (attempts s) (trace s ++ [ENoQueues])
  | AtConsumeOne =>
      let (t1, r) := consumeOne (attempt f (attempts s)) idleWait in
      let (t2, ret) := consume_turn idleWait errorWait r in
      mkRun (match ret with
             | Some wait => AtSelect wait
             | None => AtConsumeOne
             end)
            (polls s) (S (attempts s)) (trace s ++ t1 ++ t2)
  | AtSelect wait =>
      mkRun AtConsume (polls s) (attempts s)
            (trace s ++ (if 0 <? wait then [EWait wait] else []))
  | Stopped => s
  end.

Fixpoint Consume_run (f : Feed) (n : nat) (s : Run) : Run :=
  match n with
  | O => s
  | S n' => Consume_run f n' (Consume_step f s)
  end.

Definition Consume (f : Feed) (n : nat) : Run :=
  Consume_run f n (mkRun AtStart O O []).

(** [Consume] is inside its loop. *)
Definition running (s : Run) : Prop :=
  point s <> AtStart /\ point s <> Stopped.

End Engine.

(** *** Reading traces *)

Section Traces.

Context {Message error : Type}.

(** An event and, for a goroutine, the events of its body. *)
Fixpoint with_body (e : Event (Message := Message) (error := error))
    : list (Event (Message := Message) (error := error)) :=
  e :: match e with
       | EGo body => flat_map with_body body
       | _ => []
       end.

(** Every event of a trace, those of the goroutines it starts included. *)
Definition everything (t : list (Event (Message := Message) (error := error)))
    : list Event :=
  flat_map with_body t.

Definition times (p : Event (Message := Message) (error := error) -> bool)
    (t : list Event) : nat :=
  length (List.filter p (everything t)).

Definition is_commit (e : Event (Message := Message) (error := error)) : bool :=
  match e with ECommit => true | _ => false end.

Definition is_rollback (e : Event (Message := Message) (error := error)) : bool :=
  match e with ERollback => true | _ => false end.

Definition is_cancel (e : Event (Message := Message) (error := error)) : bool :=
  match e with ECancel => true | _ => false end.

Definition is_handler (e : Event (Message := Message) (error := error)) : bool :=
  match e with EHandler _ => true | _ => false end.

Definition is_mark (e : Event (Message := Message) (error := error)) : bool :=
  match e with
  | EMarkSuccess _ | EMarkRetry _ _ _ | EMarkGivenUp _ _ => true
  | _ => false
  end.

(** The waits of a trace: the durations of its [select]s. *)
Fixpoint waits (t : list (Event (Message := Message) (error := error))) : list Z :=
  match t with
  | [] => []
  | EWait wait :: t' => wait :: waits t'
  | _ :: t' => waits t'
  end.

End Traces.

Definition is_begin {Message error : Type}
    (e : Event (Message := Message) (error := error)) : bool :=
  match e with EBeginTx _ => true | _ => false end.

End Consumer.

(** ** The claims in the words of the specification, where the code
    departs from them *)

Module AsStated.
Import GoStrings GoTime StdTable Consumer.

(** "Tie-break on equal retry_at is ... stable under ORDER BY retry_at
    then id": the row the claim query hands back is a first row under
    the order by [retry_at], then [id]. *)
Definition ties_broken_by_id : Prop :=
  forall (table : stdTable) (qs : list string) (rel : Relation)
         (cands rs : list Row) (r : Row),
    let q := fst (getEarliestMessageSql (SetQueues table qs)) in
    candidates q rel = Some cands ->
    select_first q rel = Some rs ->
    In r rs ->
    In r (first_rows [ByRetryAt; ById] cands).

(** "err == nil -> treat as success; canCommit and retryAfter are
    ignored": whenever the handler returns no error, [handle] marks the
    message done and commits. *)
Definition success_always_commits : Prop :=
  forall (Message error : Type) (a : Answers (Message := Message) (error := error))
         (msg : option Message) (handler : Handler)
         (retryAfter : Z) (canCommit : bool),
    handlerOf a msg = inl handler ->
    handler msg = (retryAfter, canCommit, None) ->
    In (EMarkSuccess msg) (fst (handle a msg)) /\ In ECommit (fst (handle a msg)).

(** "UnknownQueueError ... handled internally ...; not surfaced": when no
    handler is registered, [handle] marks the message for a retry in one
    minute on the transaction, commits, and reports no error. *)
Definition unknown_queue_not_surfaced : Prop :=
  forall (Message error : Type) (a : Answers (Message := Message) (error := error))
         (msg : option Message) (err : error),
    handlerOf a msg = inr err ->
    In (EMarkRetry Tx msg Minute) (fst (handle a msg))
    /\ In ECommit (fst (handle a msg))
    /\ snd (snd (handle a msg)) = None.

(** "MarkRetry ... sets retry_at = now + retryAfter, increments
    try_count. Does not change status", for every message: whenever the
    statement is executed on the message's table, it succeeds and the
    rows of the message's id are rewritten so. *)
Definition retry_always_increments : Prop :=
  forall (jsonb : JsonbInput) (V : Type) (table : stdTable) (w : World (V := V))
         (p : positive) (m : StdMessage V) (rel : Relation) (now retryAfter : Z),
    heap w !! p = Some m ->
    tables w !! name table = Some rel ->
    MarkRetry table None now (StdMessagePtr p) retryAfter w
    = Done None
        (mkWorld (heap w)
           (<[name table :=
                mkRelation
                  (map (fun r =>
                          if id r =? Id m
                          then mkRow (id r) (queue r) (status r) (created_at r)
                                     (try_count r + 1)
                                     (rfc3339Micro (Add now retryAfter)) (data r)
                          else r)
                       (rows rel))
                  (next_id rel) (locked rel)]> (tables w))).

(** "If created_at is zero, set it to now; if retry_at is zero, set it
    to created_at", for every message passed to Produce. *)
Definition produce_fills_every_message : Prop :=
  forall (jsonb : JsonbInput) (V : Type) (json_Marshal : V -> marshaled)
         (table : stdTable) (fault : option string) (now : Z)
         (w : World (V := V)) (p : positive) (m : StdMessage V),
    heap w !! p = Some m ->
    exists res w',
      ProduceMessage json_Marshal table fault now (StdMessagePtr p) w = Done res w'
      /\ option_map CreatedAt (heap w' !! p)
         = Some (if IsZero (CreatedAt m) then now else CreatedAt m)
      /\ option_map RetryAt (heap w' !! p)
         = Some (if IsZero (RetryAt m)
                 then (if IsZero (CreatedAt m) then now else CreatedAt m)
                 else RetryAt m).

(** After any call with a zero [CreatedAt] or a zero [RetryAt], the
    caller's message is the one with the defaults filled. *)
Definition produce_always_mutates : Prop :=
  forall (jsonb : JsonbInput) (V : Type) (json_Marshal : V -> marshaled)
         (table : stdTable) (fault : option string) (now : Z)
         (w : World (V := V)) (p : positive) (m : StdMessage V),
    heap w !! p = Some m ->
    IsZero (CreatedAt m) = true \/ IsZero (RetryAt m) = true ->
    exists res w',
      ProduceMessage json_Marshal table fault now (StdMessagePtr p) w = Done res w'
      /\ heap w' !! p = Some (defaults_filled m now).

End AsStated.

(** ** Sample inputs *)

Module Samples.
Import GoStrings GoTime StdTable Consumer.

Definition a_message : StdMessage unit :=
  mkStdMessage 7 "email" (Bytes "{}") "" 0 0 0.

Definition a_row : Row := mkRow 7 "email" "" 100 0 100 "{}".

Definition a_world : World (V := unit) :=
  mkWorld {[ 1%positive := a_message ]}
          {[ "mq" := mkRelation [a_row; mkRow 8 "email" "" 101 0 101 "{}"] 9 [] ]}.

(** A database that reads two texts as JSON. *)
Definition two_documents : JsonbInput :=
  fun s => String.eqb s "{}" || String.eqb s "null".

(** A table whose row of id 7 has the largest [try_count] a [smallint]
    holds. *)
Definition a_full_world : World (V := unit) :=
  mkWorld {[ 1%positive := a_message ]}
          {[ "mq" := mkRelation [mkRow 7 "email" "" 100 32767 100 "{}"] 9 [] ]}.

(** A message whose payload is not a byte slice, and two behaviours of
    [json.Marshal] on it. *)
Definition a_value_message : StdMessage unit :=
  mkStdMessage 0 "email" (Value tt) "" 0 0 0.

Definition a_value_world : World (V := unit) :=
  mkWorld {[ 2%positive := a_value_message ]}
          {[ "mq" := mkRelation [] 1 [] ]}.

Definition refuses (v : unit) : marshaled := Unsupported "json: unsupported type".
Definition encodes (v : unit) : marshaled := Encoded "null".

Definition two_peers : Relation :=
  mkRelation [mkRow 1 "q" "" 10 0 5 "{}"; mkRow 2 "q" "" 11 0 5 "{}"] 3 [].

(** Collaborators that never fail, around a handler lookup [lookup]. *)
Definition answers_with (lookup : option nat -> Handler (Message := nat) (error := string) + string)
    (markSuccess : option string) : Answers (Message := nat) (error := string) :=
  mkAnswers None (Some 1%nat, None) 1000 lookup markSuccess
            (fun _ _ => None) (fun _ => None) None None.

(** A handler that reports success and asks not to commit. *)
Definition succeeds_without_commit : Handler (Message := nat) (error := string) :=
  fun _ => (5 * Second, false, None).

(** A handler that fails and asks for a retry in five seconds. *)
Definition fails_softly : Handler (Message := nat) (error := string) :=
  fun _ => (5 * Second, true, Some "soft").

(** A handler that fails and asks for its writes to be discarded. *)
Definition fails_hard : Handler (Message := nat) (error := string) :=
  fun _ => (Second, false, Some "hard").

(** The table refuses [MarkSuccess]. *)
Definition mark_success_fails : Answers (Message := nat) (error := string) :=
  answers_with (fun _ => inl succeeds_without_commit) (Some "connection lost").

(** Nothing refuses. *)
Definition all_well : Answers (Message := nat) (error := string) :=
  answers_with (fun _ => inl succeeds_without_commit) None.

(** No handler is registered. *)
Definition no_handler : Answers (Message := nat) (error := string) :=
  answers_with (fun _ => inr "unknown queue") None.

(** The database cannot be reached. *)
Definition no_database : Answers (Message := nat) (error := string) :=
  mkAnswers (Some "connection refused") (None, None) 1000
            (fun _ => inr "unknown queue") None
            (fun _ _ => None) (fun _ => None) None None.

Definition default_mq : SqlMQ := mkSqlMQ 0 0 0 0.

Definition always_failing : Feed (Message := nat) (error := string) :=
  mkFeed None (fun _ => false) (fun _ => no_database).

(** A message whose payload is a byte slice the database does not read
    as JSON. *)
Definition a_garbled_message : StdMessage unit :=
  mkStdMessage 0 "email" (Bytes "{not json") "" 0 0 0.

Definition a_garbled_world : World (V := unit) :=
  mkWorld {[ 3%positive := a_garbled_message ]}
          {[ "mq" := mkRelation [] 1 [] ]}.

(** Queues are registered and every attempt finds a message that is due. *)
Definition always_ready : Feed (Message := nat) (error := string) :=
  mkFeed None (fun _ => false) (fun _ => all_well).

(** No queue is ever registered. *)
Definition never_a_queue : Feed (Message := nat) (error := string) :=
  mkFeed None (fun _ => true) (fun _ => all_well).

End Samples.

(** * Properties *)

Import GoStrings GoTime Samples.

(** ** [quote] *)



Lemma app_nil_r (s : string) : s +:+ "" = s.
Proof. induction s as [|c s IH]; cbn; [reflexivity | now rewrite IH]. Qed.

Lemma app_assoc (s t u : string) : (s +:+ t) +:+ u = s +:+ (t +:+ u).
Proof. induction s as [|c s IH]; cbn; [reflexivity | now rewrite IH]. Qed.

Lemma map_bytes_app (f : ascii -> string) (s t : string) :
  map_bytes f (s +:+ t) = map_bytes f s +:+ map_bytes f t.
Proof.
  induction s as [|c s IH]; cbn; [reflexivity|].
  now rewrite IH, app_assoc.
Qed.

Lemma map_bytes_compose (f g : ascii -> string) (s : string) :
  map_bytes g (map_bytes f s) = map_bytes (fun c => map_bytes g (f c)) s.
Proof.
  induction s as [|c s IH]; cbn; [reflexivity|].
  now rewrite map_bytes_app, IH.
Qed.

Lemma map_bytes_ext (f g : ascii -> string) (s : string) :
  (forall c, f c = g c) -> map_bytes f s = map_bytes g s.
Proof.
  intros Hfg. induction s as [|c s IH]; cbn; [reflexivity|].
  now rewrite Hfg, IH.
Qed.

(** Replacing a one-byte pattern works byte by byte. *)
Lemma replace_from_byte (c : ascii) (new s : string) :
  replace_from (String c "") new O s
  = map_bytes (fun d => if Ascii.eqb d c then new else String d "") s.
Proof.
  induction s as [|d s' IH]; [reflexivity|].
  cbn [replace_from map_bytes String.prefix String.length Nat.pred].
  destruct (ascii_dec c d) as [->|Hne].
  - rewrite Ascii.eqb_refl, IH. now destruct s'.
  - destruct (Ascii.eqb_spec d c) as [->|_]; [congruence|].
    now rewrite IH.
Qed.

Lemma escape_byte_two_passes (c : ascii) :
  map_bytes (fun d => if Ascii.eqb d nul then "" else String d "")
            (if Ascii.eqb c squote then "''" else String c "")
  = escape_byte c.
Proof.
  unfold escape_byte.
  destruct (Ascii.eqb_spec c squote) as [->|_]; [reflexivity|].
  cbn. destruct (Ascii.eqb c nul); reflexivity.
Qed.

Lemma quote_body (s : string) :
  Replace (Replace s "'" "''") (String nul "") "" = escape s.
Proof.
  unfold Replace, escape. rewrite !replace_from_byte, map_bytes_compose.
  apply map_bytes_ext, escape_byte_two_passes.
Qed.

Lemma unquote_body_escape (s : string) :
  unquote_body (escape s +:+ "'") = Some (strip_nul s).
Proof.
  induction s as [|c s IH]; [reflexivity|].
  unfold escape in *. cbn [map_bytes strip_nul]. unfold escape_byte.
  destruct (Ascii.eqb_spec c squote) as [->|Hq].
  - change (unquote_body (String squote (String squote
              (map_bytes escape_byte s +:+ "'"))) = Some (String squote (strip_nul s))).
    cbn [unquote_body]. rewrite Ascii.eqb_refl, IH. reflexivity.
  - destruct (Ascii.eqb_spec c nul) as [->|Hn].
    + exact IH.
    + change (unquote_body (String c (map_bytes escape_byte s +:+ "'"))
              = Some (String c (strip_nul s))).
      cbn [unquote_body]. apply Ascii.eqb_neq in Hq. rewrite Hq, IH. reflexivity.
Qed.

(** C8. [quote] is the escaping the specification describes: every
    single quote of the input is doubled, every NUL byte is removed, and
    the result is wrapped in single quotes. *)
Theorem quote_escapes (s : string) : quote s = quote_spec s.
Proof. unfold quote, quote_spec. cbv zeta. now rewrite quote_body. Qed.

(** Read back by the database, a quoted string is the input without its
    NUL bytes: the literal cannot be left early. *)
Lemma unquote_quote (s : string) : unquote (quote s) = Some (strip_nul s).
Proof.
  unfold quote. cbv zeta. rewrite quote_body.
  change (unquote_body (escape s +:+ "'") = Some (strip_nul s)).
  apply unquote_body_escape.
Qed.

Example quote_ex1 : quote "it's" = "'it''s'".
Proof. reflexivity. Qed.

Example quote_ex2 : quote (String "a" (String nul "'")) = "'a'''".
Proof. reflexivity. Qed.


(** ** The claim query *)

Import StdTable.

Lemma insert_sorted_In (s x : string) (l : list string) :
  In x (insert_sorted s l) <-> x = s \/ In x l.
Proof.
  induction l as [|y l IH]; cbn.
  - intuition.
  - destruct (String.leb s y); cbn; [intuition | rewrite IH; intuition].
Qed.

Lemma sort_Strings_In (x : string) (l : list string) :
  In x (sort_Strings l) <-> In x l.
Proof.
  induction l as [|y l IH]; cbn; [reflexivity|].
  rewrite insert_sorted_In, IH. intuition.
Qed.

(** Reading back a list of quoted strings. *)
Lemma unquote_all_quoted (l : list string) :
  (forall x, In x l -> exists s, x = quote s) ->
  exists l', unquote_all l = Some l'
    /\ length l' = length l
    /\ forall y, In y l' <-> exists s, In (quote s) l /\ y = strip_nul s.
Proof.
  induction l as [|x l IH]; intros Hq.
  - exists []. cbn. repeat split; try tauto. intros (s & [] & _).
  - destruct (Hq x) as [s ->]; [now left|].
    destruct IH as (l' & Hl' & Hlen & Hin); [intros y Hy; apply Hq; now right|].
    exists (strip_nul s :: l'). cbn [unquote_all length In].
    rewrite unquote_quote, Hl'.
    split; [reflexivity|]. split; [now rewrite Hlen|].
    intros y. rewrite Hin. split.
    + intros [<-|(s' & Hs' & ->)]; [exists s; auto | exists s'; auto].
    + intros (s' & [Heq|Hs'] & ->).
      * left.
        assert (H : Some (strip_nul s) = Some (strip_nul s')).
        { rewrite <- !unquote_quote. now rewrite Heq. }
        now inversion H.
      * right. exists s'. auto.
Qed.

Lemma claim_query_fresh (table : stdTable) (qs : list string) :
  fst (getEarliestMessageSql (SetQueues table qs))
  = mkSelect (name table) (sort_Strings (map quote qs)) (in_quotes statusWait)
             [ByRetryAt] 1 true.
Proof. reflexivity. Qed.

(** Once built, the statement is served from the cache. *)
Lemma claim_query_cached (table : stdTable) (qs : list string) :
  let (q, table') := getEarliestMessageSql (SetQueues table qs) in
  getEarliestMessageSql table' = (q, table').
Proof. reflexivity. Qed.

Lemma string_in_In (s : string) (l : list string) :
  string_in s l = true <-> In s l.
Proof.
  unfold string_in. rewrite existsb_exists. split.
  - intros (x & Hx & Heq). apply String.eqb_eq in Heq. now subst.
  - intros H. exists s. split; [assumption | apply String.eqb_refl].
Qed.

Lemma Z_in_In (k : Z) (l : list Z) : Z_in k l = true <-> In k l.
Proof.
  unfold Z_in. rewrite existsb_exists. split.
  - intros (x & Hx & Heq). apply Z.eqb_eq in Heq. now subst.
  - intros H. exists k. split; [assumption | apply Z.eqb_refl].
Qed.

Lemma not_after_retry_at (r r' : Row) :
  not_after [ByRetryAt] r r' = true <-> retry_at r <= retry_at r'.
Proof.
  unfold not_after. cbn [order_cmp order_key].
  destruct (Z.compare_spec (retry_at r) (retry_at r')); split; intros; try lia; try reflexivity; discriminate.
Qed.

Lemma not_after_refines (r r' : Row) :
  not_after [ByRetryAt; ById] r r' = true -> not_after [ByRetryAt] r r' = true.
Proof.
  unfold not_after. cbn [order_cmp order_key].
  destruct (retry_at r ?= retry_at r'); auto.
Qed.

Lemma first_rows_In (ks : list OrderKey) (cands : list Row) (r : Row) :
  In r (first_rows ks cands)
  <-> In r cands /\ forall r', In r' cands -> not_after ks r r' = true.
Proof. unfold first_rows. now rewrite filter_In, forallb_forall. Qed.

(** A non-empty list of rows has a row of least [retry_at]. *)
Lemma least_retry_at_exists (cands : list Row) :
  cands <> [] ->
  exists r, In r cands /\ forall r', In r' cands -> retry_at r <= retry_at r'.
Proof.
  induction cands as [|x l IH]; [congruence|]. intros _.
  destruct l as [|y l].
  - exists x. split; [now left|]. intros r' [<-|[]]. lia.
  - destruct IH as (m & Hm & Hleast); [congruence|].
    destruct (Z_le_gt_dec (retry_at x) (retry_at m)) as [Hle|Hgt].
    + exists x. split; [now left|].
      intros r' [<-|Hr']; [lia|]. specialize (Hleast r' Hr'). lia.
    + exists m. split; [now right|].
      intros r' [<-|Hr']; [lia|]. now apply Hleast.
Qed.

Lemma candidates_In (s : SelectStmt) (rel : Relation) (cands : list Row) :
  candidates s rel = Some cands ->
  exists qs st,
    unquote_all (sel_queue_in s) = Some qs
    /\ unquote (sel_status s) = Some st
    /\ forall r, In r cands <->
         In r (rows rel) /\ In (queue r) qs /\ status r = st
         /\ (sel_skip_locked s = true -> ~ In (id r) (locked rel)).
Proof.
  unfold candidates.
  destruct (unquote_all (sel_queue_in s)) as [qs|]; [|discriminate].
  destruct (unquote (sel_status s)) as [st|]; [|destruct qs; discriminate].
  cbn [mbind option_bind].
  intros H. exists qs, st. split; [reflexivity|]. split; [reflexivity|].
  assert (Hc : cands = List.filter
            (fun r => string_in (queue r) qs && String.eqb (status r) st
                      && negb (sel_skip_locked s && Z_in (id r) (locked rel)))
            (rows rel)) by (destruct qs; [discriminate | now inversion H]).
  subst cands. intros r.
  rewrite filter_In, !andb_true_iff, negb_true_iff, string_in_In, String.eqb_eq.
  rewrite andb_false_iff, <- (not_true_iff_false (Z_in _ _)), Z_in_In.
  destruct (sel_skip_locked s); intuition congruence.
Qed.

(** The rows the claim query looks at: the rows of the registered queues
    (NUL bytes apart) that wait and that no other transaction holds. *)
Lemma claim_query_candidates (table : stdTable) (qs : list string)
    (rel : Relation) (cands : list Row) :
  candidates (fst (getEarliestMessageSql (SetQueues table qs))) rel = Some cands ->
  forall r, In r cands <->
    In r (rows rel)
    /\ (exists s, In s qs /\ queue r = strip_nul s)
    /\ status r = statusWait
    /\ ~ In (id r) (locked rel).
Proof.
  rewrite claim_query_fresh.
  intros Hc. apply candidates_In in Hc. destruct Hc as (l & st & Hl & Hst & Hin).
  cbn [sel_queue_in sel_status sel_skip_locked] in *.
  destruct (unquote_all_quoted (sort_Strings (map quote qs))) as (l' & Hl' & _ & Hq).
  { intros x Hx. apply sort_Strings_In, in_map_iff in Hx.
    destruct Hx as (s & <- & _). now exists s. }
  rewrite Hl' in Hl. injection Hl as <-.
  injection Hst as <-.
  intros r. rewrite Hin, Hq. split.
  - intros (Hr & (s & Hs & Hqr) & Hst & Hlk). repeat split; auto.
    apply sort_Strings_In, in_map_iff in Hs. destruct Hs as (s' & Heq & Hs').
    exists s'. split; [assumption|].
    assert (H : Some (strip_nul s') = Some (strip_nul s)).
    { rewrite <- !unquote_quote. now rewrite Heq. }
    inversion H. congruence.
  - intros (Hr & (s & Hs & Hqr) & Hst & Hlk). repeat split; auto.
    exists s. split; [|assumption].
    apply sort_Strings_In, in_map_iff. now exists s.
Qed.

(** With a queue registered, the database accepts the claim query. *)
Lemma claim_query_runs (table : stdTable) (qs : list string) (rel : Relation) :
  qs <> [] ->
  exists cands,
    candidates (fst (getEarliestMessageSql (SetQueues table qs))) rel = Some cands.
Proof.
  intros Hne. rewrite claim_query_fresh. unfold candidates.
  cbn [sel_queue_in sel_status sel_skip_locked].
  destruct (unquote_all_quoted (sort_Strings (map quote qs))) as (l' & Hl' & _ & Hq).
  { intros x Hx. apply sort_Strings_In, in_map_iff in Hx.
    destruct Hx as (s & <- & _). now exists s. }
  rewrite Hl'. cbn [mbind option_bind].
  change (unquote (in_quotes statusWait)) with (Some EmptyString).
  cbn [mbind option_bind].
  destruct l' as [|q0 l0]; [|eexists; reflexivity].
  destruct qs as [|s0 qs0]; [congruence|].
  exfalso. apply (proj2 (Hq (strip_nul s0))).
  exists s0. split; [|reflexivity].
  apply sort_Strings_In, in_map_iff. exists s0. split; [reflexivity | now left].
Qed.

(** C3 (as amended). The claim query orders by [retry_at] alone and
    keeps one row.  With a queue registered the query runs, and the rows
    it may hand back are exactly the waiting, unlocked rows of the
    registered queues whose [retry_at] is least; there is one whenever
    such a row exists; and among rows of equal [retry_at] the statement
    does not choose, the row of least [id] being one of those it may
    hand back. *)
Theorem earliest_query_orders_by_retry_at (table : stdTable) (qs : list string)
    (rel : Relation) :
  let q := fst (getEarliestMessageSql (SetQueues table qs)) in
  qs <> [] ->
  sel_order_by q = [ByRetryAt] /\ sel_limit q = 1%nat /\
  exists cands rs,
    candidates q rel = Some cands
    /\ select_first q rel = Some rs
    /\ (forall r, In r cands <->
          In r (rows rel) /\ (exists s, In s qs /\ queue r = strip_nul s)
          /\ status r = statusWait /\ ~ In (id r) (locked rel))
    /\ (forall r, In r rs <->
          In r cands /\ forall r', In r' cands -> retry_at r <= retry_at r')
    /\ (forall r, In r (first_rows [ByRetryAt; ById] cands) -> In r rs)
    /\ (cands <> [] -> rs <> []).
Proof.
  intros q Hqs. split; [reflexivity|]. split; [reflexivity|].
  destruct (claim_query_runs table qs rel Hqs) as (cands & Hc). fold q in Hc.
  exists cands, (first_rows [ByRetryAt] cands).
  split; [exact Hc|].
  split; [unfold select_first; now rewrite Hc|].
  split; [now apply (claim_query_candidates table qs rel cands)|].
  assert (Hfirst : forall r, In r (first_rows [ByRetryAt] cands) <->
            In r cands /\ forall r', In r' cands -> retry_at r <= retry_at r').
  { intros r. rewrite first_rows_In. split; intros [Hr Hle]; (split; [assumption|]);
      intros r' Hr'; apply not_after_retry_at; auto. }
  split; [exact Hfirst|]. split.
  - intros r. rewrite !first_rows_In. intros [Hr Hle]. split; [assumption|].
    intros r' Hr'. apply not_after_refines; auto.
  - intros Hne. destruct (least_retry_at_exists cands Hne) as (r & Hr).
    apply Hfirst in Hr. intros Hnil. rewrite Hnil in Hr. destruct Hr.
Qed.

(** C3, counterexample. With two waiting rows of equal [retry_at], the
    claim query may hand back the row of [id] 2, which ORDER BY
    retry_at, id would not put first. *)
Lemma ties_not_broken_by_id : ~ AsStated.ties_broken_by_id.
Proof.
  intros H.
  specialize (H (mkStdTable "mq" [] None) ["q"] two_peers
                (rows two_peers) (rows two_peers) (mkRow 2 "q" "" 11 0 5 "{}")).
  cbv zeta in H.
  specialize (H eq_refl eq_refl).
  assert (Hin : In (mkRow 2 "q" "" 11 0 5 "{}") (rows two_peers))
    by (right; left; reflexivity).
  apply H in Hin. vm_compute in Hin.
  destruct Hin as [Heq|[]]. discriminate Heq.
Qed.

Lemma earliest_query_witness :
  exists rs,
    select_first (fst (getEarliestMessageSql (SetQueues (mkStdTable "mq" [] None) ["q"])))
                 two_peers = Some rs
    /\ In (mkRow 1 "q" "" 10 0 5 "{}") rs.
Proof.
  destruct (earliest_query_orders_by_retry_at (mkStdTable "mq" [] None) ["q"]
              two_peers ltac:(discriminate))
    as (_ & _ & cands & rs & Hc & Hrs & _ & _ & Hfine & _).
  exists rs. split; [exact Hrs|]. apply Hfine.
  injection Hc as <-. left. reflexivity.
Defined.

(** ** The adapter's statements *)

Lemma rewrite_rows_map (k : Z) (f : Row -> option Row) (g : Row -> Row) (l : list Row) :
  Forall (fun r => id r = k -> f r = Some (g r)) l ->
  rewrite_rows k f l = Some (map (fun r => if id r =? k then g r else r) l).
Proof.
  induction 1 as [|r l Hr _ IH]; [reflexivity|].
  cbn [rewrite_rows map]. rewrite IH.
  destruct (Z.eqb_spec (id r) k) as [Heq|_]; [rewrite (Hr Heq)|]; reflexivity.
Qed.

Lemma rewrite_rows_fails (k : Z) (f : Row -> option Row) (l : list Row) :
  Exists (fun r => id r = k /\ f r = None) l ->
  rewrite_rows k f l = None.
Proof.
  induction 1 as [r l [Hk Hf]|r l _ IH]; cbn [rewrite_rows].
  - rewrite <- Hk, Z.eqb_refl, Hf. reflexivity.
  - rewrite IH. destruct (if id r =? k then f r else Some r); reflexivity.
Qed.

Lemma smallint_ok_succ (n : Z) :
  smallint_ok (n + 1) = true <-> -32769 <= n < 32767.
Proof. unfold smallint_ok. rewrite andb_true_iff, !Z.leb_le. lia. Qed.

Section AdapterFacts.

Context {V : Type} {jsonb : JsonbInput}.
Implicit Types (w : World (V := V)) (m : StdMessage V) (msg : Message).

(** C4 (as amended). [MarkRetry], when its statement is executed on a
    table whose rows of the message's [id] have a [try_count] below
    32767, rewrites those rows: [retry_at] becomes now plus [retryAfter]
    (at the microsecond the literal carries), [try_count] grows by one,
    and [id], [queue], [status], [created_at] and [data] stay as they
    were; the other rows, the other tables and the message in memory
    are not touched.  When such a row is at 32767, the largest
    [smallint], the UPDATE is rejected: [MarkRetry] returns the error
    and nothing changes. *)
Theorem MarkRetry_sets_retry_at_and_try_count
    (table : stdTable) w (p : positive) m (rel : Relation)
    (now retryAfter : Z) :
  heap w !! p = Some m ->
  tables w !! name table = Some rel ->
  (Forall (fun r => id r = Id m -> -32768 <= try_count r < 32767) (rows rel) ->
   MarkRetry table None now (StdMessagePtr p) retryAfter w
   = Done None
       (mkWorld (heap w)
          (<[name table :=
               mkRelation
                 (map (fun r =>
                         if id r =? Id m
                         then mkRow (id r) (queue r) (status r) (created_at r)
                                    (try_count r + 1)
                                    (rfc3339Micro (Add now retryAfter)) (data r)
                         else r)
                      (rows rel))
                 (next_id rel) (locked rel)]> (tables w))))
  /\ (Exists (fun r => id r = Id m /\ 32767 <= try_count r) (rows rel) ->
      exists err,
        MarkRetry table None now (StdMessagePtr p) retryAfter w = Done (Some err) w).
Proof.
  intros Hp Hrel.
  unfold MarkRetry, bind, as_StdMessage, ret, load, Exec, run_stmt.
  rewrite Hp. cbn [stmt_table upd_table exec_stmt]. rewrite Hrel.
  cbn [mbind option_bind]. unfold exec_update.
  cbn [upd_set upd_where_id update_effect set_effect mbind option_bind].
  split.
  - intros Hok.
    rewrite (rewrite_rows_map (Id m) _
               (fun r => mkRow (id r) (queue r) (status r) (created_at r)
                               (try_count r + 1)
                               (rfc3339Micro (Add now retryAfter)) (data r))).
    + reflexivity.
    + eapply List.Forall_impl; [|exact Hok]. cbn. intros r Hr Hid.
      specialize (Hr Hid).
      assert (Hs : smallint_ok (try_count r + 1) = true)
        by (apply smallint_ok_succ; lia).
      now rewrite Hs.
  - intros Hfull. exists (SqlError "rejected").
    rewrite rewrite_rows_fails; [reflexivity|].
    eapply List.Exists_impl; [|exact Hfull]. cbn. intros r [Hid Hr].
    split; [exact Hid|].
    assert (Hs : smallint_ok (try_count r + 1) = false).
    { apply not_true_iff_false. rewrite smallint_ok_succ. lia. }
    now rewrite Hs.
Qed.

End AdapterFacts.

(** C4, counterexample. On a row whose [try_count] is 32767 the UPDATE
    of [MarkRetry] is rejected: nothing is incremented. *)
Lemma retry_stops_at_smallint_max : ~ AsStated.retry_always_increments.
Proof.
  intros H.
  specialize (H two_documents unit (mkStdTable "mq" ["email"] None) a_full_world
                1%positive a_message
                (mkRelation [mkRow 7 "email" "" 100 32767 100 "{}"] 9 [])
                5000000 2000000 eq_refl eq_refl).
  vm_compute in H. discriminate H.
Qed.

Lemma MarkRetry_witness :
  exists w', MarkRetry (jsonb := two_documents) (mkStdTable "mq" ["email"] None) None
                       5000000 (StdMessagePtr 1) 2000000 a_world = Done None w'
    /\ tables w' !! "mq"
       = Some (mkRelation [mkRow 7 "email" "" 100 1 7000 "{}";
                           mkRow 8 "email" "" 101 0 101 "{}"] 9 []).
Proof.
  eexists. split.
  - apply (MarkRetry_sets_retry_at_and_try_count (jsonb := two_documents)
             (mkStdTable "mq" ["email"] None)
             a_world 1%positive a_message
             (mkRelation [a_row; mkRow 8 "email" "" 101 0 101 "{}"] 9 [])
             5000000 2000000 eq_refl eq_refl).
    repeat constructor; cbn; lia.
  - reflexivity.
Defined.

Section ProduceFacts.

Context {V : Type} {jsonb : JsonbInput}.
Implicit Types (w : World (V := V)) (m : StdMessage V).

Lemma defaults_filled_nonzero m (now : Z) :
  IsZero (CreatedAt m) = false -> IsZero (RetryAt m) = false ->
  defaults_filled m now = m.
Proof.
  intros Hc Hr. unfold defaults_filled. rewrite Hc, Hr. now destruct m.
Qed.

(** [ProduceMessage] on a payload that yields [jsonData]: the defaults
    are stored through the pointer, then the INSERT is executed. *)
Lemma ProduceMessage_run (json_Marshal : V -> marshaled) (table : stdTable)
    (fault : option string) (now : Z) w (p : positive) m (jsonData : string) :
  heap w !! p = Some m ->
  jsonData_of json_Marshal (Data m) = inl jsonData ->
  ProduceMessage json_Marshal table fault now (StdMessagePtr p) w
  = Exec fault
         (SInsert (mkInsert (name table)
            (quote (Queue m)) (quote jsonData) (quote (Status m))
            (rfc3339Micro (CreatedAt (defaults_filled m now))) (TryCount m)
            (rfc3339Micro (RetryAt (defaults_filled m now)))))
         (mkWorld (<[p := defaults_filled m now]> (heap w)) (tables w)).
Proof.
  intros Hp Hj.
  unfold ProduceMessage, bind, as_StdMessage, ret, load. rewrite Hp, Hj.
  destruct (IsZero (CreatedAt m)) eqn:Hc; destruct (IsZero (RetryAt m)) eqn:Hr;
    unfold store; cbn [heap tables];
    rewrite ?lookup_insert_eq, ?Hp; cbn [CreatedAt RetryAt with_CreatedAt with_RetryAt];
    rewrite ?Hc, ?Hr; cbn [heap tables];
    rewrite ?lookup_insert_eq, ?Hp, ?insert_insert_eq.
  - unfold defaults_filled. rewrite Hc, Hr. reflexivity.
  - unfold defaults_filled. rewrite Hc, Hr. reflexivity.
  - unfold defaults_filled. rewrite Hc, Hr. reflexivity.
  - rewrite defaults_filled_nonzero by assumption.
    rewrite (insert_id (heap w) p m Hp). now destruct w.
Qed.

(** When [json.Marshal] refuses the payload, [ProduceMessage] returns
    its error at once. *)
Lemma ProduceMessage_refused (json_Marshal : V -> marshaled) (table : stdTable)
    (fault : option string) (now : Z) w (p : positive) m (err : error) :
  heap w !! p = Some m ->
  jsonData_of json_Marshal (Data m) = inr err ->
  ProduceMessage json_Marshal table fault now (StdMessagePtr p) w = Done (Some err) w.
Proof.
  intros Hp Hj. unfold ProduceMessage, bind, as_StdMessage, ret, load.
  now rewrite Hp, Hj.
Qed.

(** C5 (as amended). For a message whose payload is a byte slice or is
    accepted by [json.Marshal], [ProduceMessage] fills the two
    timestamps before it formats the INSERT: a zero [CreatedAt] becomes
    the current time, a zero [RetryAt] becomes [CreatedAt] (the value
    just filled, if it was); the message so filled is stored, and the
    statement handed to [Exec] carries the two values.  When the
    database accepts the row ([try_count] fits [smallint], the payload
    is JSON), the row inserted carries them.  When [json.Marshal]
    refuses the payload, nothing is filled and nothing is inserted. *)
Theorem ProduceMessage_fills_timestamps (json_Marshal : V -> marshaled)
    (table : stdTable) (fault : option string) (now : Z) w (p : positive) m :
  heap w !! p = Some m ->
  let created := if IsZero (CreatedAt m) then now else CreatedAt m in
  let retry := if IsZero (RetryAt m) then created else RetryAt m in
  let filled := mkStdMessage (Id m) (Queue m) (Data m) (Status m) created
                             (TryCount m) retry in
  (forall jsonData, jsonData_of json_Marshal (Data m) = inl jsonData ->
     ProduceMessage json_Marshal table fault now (StdMessagePtr p) w
     = Exec fault
         (SInsert (mkInsert (name table)
            (quote (Queue m)) (quote jsonData) (quote (Status m))
            (rfc3339Micro created) (TryCount m) (rfc3339Micro retry)))
         (mkWorld (<[p := filled]> (heap w)) (tables w))
     /\ forall rel,
          tables w !! name table = Some rel ->
          smallint_ok (TryCount m) = true ->
          jsonb_accepts (strip_nul jsonData) = true ->
          ProduceMessage json_Marshal table None now (StdMessagePtr p) w
          = Done None
              (mkWorld (<[p := filled]> (heap w))
                 (<[name table :=
                      mkRelation
                        (rows rel ++
                         [mkRow (next_id rel) (strip_nul (Queue m))
                                (strip_nul (Status m)) (rfc3339Micro created)
                                (TryCount m) (rfc3339Micro retry)
                                (strip_nul jsonData)])
                        (next_id rel + 1) (locked rel)]> (tables w))))
  /\ (forall err, jsonData_of json_Marshal (Data m) = inr err ->
        ProduceMessage json_Marshal table fault now (StdMessagePtr p) w
        = Done (Some err) w).
Proof.
  intros Hp created retry filled. split.
  - intros jsonData Hj. split.
    + exact (ProduceMessage_run json_Marshal table fault now w p m jsonData Hp Hj).
    + intros rel Hrel Hsmall Hjson.
      rewrite (ProduceMessage_run json_Marshal table None now w p m jsonData Hp Hj).
      unfold Exec, run_stmt. cbn [tables stmt_table ins_table]. rewrite Hrel.
      cbn [mbind option_bind exec_stmt]. unfold exec_insert.
      cbn [ins_queue ins_data ins_status ins_created_at ins_try_count ins_retry_at].
      rewrite !unquote_quote. cbn [mbind option_bind].
      rewrite Hsmall, Hjson. reflexivity.
  - intros err Hj. exact (ProduceMessage_refused json_Marshal table fault now w p m err Hp Hj).
Qed.

(** C9 (as amended). For a message whose payload is a byte slice or is
    accepted by [json.Marshal], [ProduceMessage] writes the defaults
    through the pointer it is given: whether or not the INSERT then
    succeeds, the caller's message is the one with the timestamps
    filled, and no other message of the heap changes.  When
    [json.Marshal] refuses the payload, the caller's message is left as
    it was. *)
Theorem ProduceMessage_mutates_in_place (json_Marshal : V -> marshaled)
    (table : stdTable) (fault : option string) (now : Z) w (p : positive) m :
  heap w !! p = Some m ->
  (forall jsonData, jsonData_of json_Marshal (Data m) = inl jsonData ->
     exists res w',
       ProduceMessage json_Marshal table fault now (StdMessagePtr p) w = Done res w'
       /\ heap w' = <[p := defaults_filled m now]> (heap w)
       /\ (IsZero (CreatedAt m) = true ->
           option_map CreatedAt (heap w' !! p) = Some now)
       /\ (IsZero (RetryAt m) = true ->
           option_map RetryAt (heap w' !! p) = option_map CreatedAt (heap w' !! p)))
  /\ (forall err, jsonData_of json_Marshal (Data m) = inr err ->
        exists res w',
          ProduceMessage json_Marshal table fault now (StdMessagePtr p) w = Done res w'
          /\ heap w' = heap w).
Proof.
  intros Hp. split.
  - intros jsonData Hj.
    rewrite (ProduceMessage_run json_Marshal table fault now w p m jsonData Hp Hj).
    unfold Exec. cbn [tables].
    assert (Hfill : forall h, (<[p := defaults_filled m now]> h
                               : gmap positive (StdMessage V)) !! p
                              = Some (defaults_filled m now))
      by (intros h; apply lookup_insert_eq).
    destruct fault as [text|]; [|destruct (run_stmt _ _)];
      eexists; eexists; (split; [reflexivity|]); cbn [heap];
      (split; [reflexivity|]); rewrite Hfill; unfold defaults_filled; cbn;
      split; intros ->; reflexivity.
  - intros err Hj. exists (Some err), w. split; [|reflexivity].
    exact (ProduceMessage_refused json_Marshal table fault now w p m err Hp Hj).
Qed.



End ProduceFacts.

(** C5, counterexample. A message whose payload [json.Marshal] refuses
    comes back with its zero timestamps. *)
Lemma produce_skips_refused_message : ~ AsStated.produce_fills_every_message.
Proof.
  intros H.
  destruct (H two_documents unit refuses (mkStdTable "mq" [] None) None 1234567
              a_value_world 2%positive a_value_message eq_refl)
    as (res & w' & Hrun & Hcreated & _).
  vm_compute in Hrun. injection Hrun as _ <-.
  vm_compute in Hcreated. discriminate Hcreated.
Qed.

Lemma ProduceMessage_fills_timestamps_witness :
  ProduceMessage (jsonb := two_documents) encodes (mkStdTable "mq" [] None) None 1234567
                 (StdMessagePtr 1) a_world
  = Done None
      (mkWorld {[ 1%positive := mkStdMessage 7 "email" (Bytes "{}") "" 1234567 0 1234567 ]}
               {[ "mq" := mkRelation
                            [a_row; mkRow 8 "email" "" 101 0 101 "{}";
                             mkRow 9 "email" "" 1234 0 1234 "{}"] 10 [] ]}).
Proof.
  destruct (ProduceMessage_fills_timestamps (jsonb := two_documents) encodes
              (mkStdTable "mq" [] None) None 1234567 a_world 1%positive a_message
              eq_refl) as (Hok & _).
  destruct (Hok "{}" eq_refl) as (_ & Hrow).
  rewrite (Hrow (mkRelation [a_row; mkRow 8 "email" "" 101 0 101 "{}"] 9 [])
             eq_refl eq_refl eq_refl).
  reflexivity.
Defined.

(** C9, counterexample. After a call on a message with zero timestamps
    whose payload [json.Marshal] refuses, the caller's message is the
    one it was. *)
Lemma produce_leaves_refused_message : ~ AsStated.produce_always_mutates.
Proof.
  intros H.
  destruct (H two_documents unit refuses (mkStdTable "mq" [] None) None 1234567
              a_value_world 2%positive a_value_message eq_refl (or_introl eq_refl))
    as (res & w' & Hrun & Hheap).
  vm_compute in Hrun. injection Hrun as _ <-.
  vm_compute in Hheap. discriminate Hheap.
Qed.

Lemma ProduceMessage_mutates_in_place_witness :
  exists res w',
    ProduceMessage (jsonb := two_documents) encodes (mkStdTable "mq" [] None)
                   (Some "connection lost") 1234567 (StdMessagePtr 1) a_world
    = Done res w'
    /\ heap w' !! 1%positive
       = Some (mkStdMessage 7 "email" (Bytes "{}") "" 1234567 0 1234567).
Proof.
  destruct (ProduceMessage_mutates_in_place (jsonb := two_documents) encodes
              (mkStdTable "mq" [] None) (Some "connection lost") 1234567 a_world
              1%positive a_message eq_refl) as (Hok & _).
  destruct (Hok "{}" eq_refl) as (res & w' & Hrun & Hheap & _).
  exists res, w'. split; [exact Hrun|]. rewrite Hheap. reflexivity.
Defined.


(** ** The dispatcher *)

Import Consumer.

Section DispatcherFacts.

Context {Message error : Type}.
Implicit Types (a : Answers (Message := Message) (error := error))
               (msg : option Message) (db : DBOrTx)
               (s : Run (Message := Message) (error := error))
               (f : Feed (Message := Message) (error := error)).

(** C2. [markFail] reads the sign of [retryAfter]: when it is not
    negative, [MarkRetry] is called with that delay and, if it succeeds,
    [TriggerConsume] is signalled (if it fails, the error is logged
    instead); when it is negative, [MarkGivenUp] is called and no
    wake-up is signalled. *)
Theorem markFail_reads_sign a db msg (retryAfter : Z) :
  (0 <= retryAfter -> markRetry a db retryAfter = None ->
     markFail a db msg retryAfter
     = ([EMarkRetry db msg retryAfter; ETriggerConsume], tt))
  /\ (0 <= retryAfter -> forall err, markRetry a db retryAfter = Some err ->
     markFail a db msg retryAfter
     = ([EMarkRetry db msg retryAfter; ELogError err], tt))
  /\ (retryAfter < 0 ->
     fst (markFail a db msg retryAfter)
     = EMarkGivenUp db msg
         :: match markGivenUp a db with
            | Some err => [ELogError err]
            | None => []
            end
     /\ ~ In ETriggerConsume (fst (markFail a db msg retryAfter))).
Proof.
  unfold markFail. repeat split.
  - intros Hr Hm. destruct (Z.leb_spec 0 retryAfter); [|lia].
    cbn. now rewrite Hm.
  - intros Hr err Hm. destruct (Z.leb_spec 0 retryAfter); [|lia].
    cbn. now rewrite Hm.
  - destruct (Z.leb_spec 0 retryAfter); [lia|].
    cbn. now destruct (markGivenUp a db).
  - destruct (Z.leb_spec 0 retryAfter); [lia|].
    cbn. destruct (markGivenUp a db); cbn; intuition discriminate.
Qed.

(** C1 (as amended). When the handler returns no error, [handle] calls
    [MarkSuccess] on the transaction and no mark-fail step, whatever
    [retryAfter] and [canCommit] are.  If [MarkSuccess] succeeds, the
    transaction is committed, also when [canCommit] is false, and the
    result of the commit is returned.  If [MarkSuccess] fails, its error
    is returned and [canCommit] decides: the transaction is committed
    when it is true and rolled back when it is false. *)
Theorem handle_success a msg (handler : Handler) (retryAfter : Z) (canCommit : bool) :
  handlerOf a msg = inl handler ->
  handler msg = (retryAfter, canCommit, None) ->
  (markSuccess a = None ->
     handle a msg
     = ([EHandlerOf msg; EHandler msg; EMarkSuccess msg; ECommit; ECancel],
        (retryAfter, commit a)))
  /\ (forall err, markSuccess a = Some err -> canCommit = true ->
     handle a msg
     = ([EHandlerOf msg; EHandler msg; EMarkSuccess msg; ECommit]
          ++ fst (log_if_error (commit a)) ++ [ECancel],
        (retryAfter, Some err)))
  /\ (forall err, markSuccess a = Some err -> canCommit = false ->
     handle a msg
     = ([EHandlerOf msg; EHandler msg; EMarkSuccess msg; ERollback]
          ++ fst (log_if_error (rollback a)) ++ [ECancel],
        (retryAfter, Some err))).
Proof.
  intros Hh Hr. unfold handle, handle_body, handle_deferred.
  cbn [emit wbind]. rewrite Hh. cbn [wbind emit]. rewrite Hr. repeat split.
  - intros ->. reflexivity.
  - intros err -> ->. destruct (commit a); reflexivity.
  - intros err -> ->. destruct (rollback a); reflexivity.
Qed.

Variable ConsumeAt : Message -> Z.
Variable mq : SqlMQ.

(** Once a message is claimed and due, [consumeOne] starts [handle] in a
    goroutine and returns its own results: no error. *)
Lemma consumeOne_dispatches a msg (idleWait : Z) :
  beginTx_err a = None ->
  earliest a = (msg, None) ->
  let wait := match msg with
              | Some m => Until (clock a) (ConsumeAt m)
              | None => idleWait
              end in
  wait <= 0 ->
  consumeOne ConsumeAt mq a idleWait
  = ([EBeginTx (if TxTimeout mq <=? 0 then Minute else TxTimeout mq);
      EEarliestMessage; EGo (fst (handle a msg))],
     (wait, None)).
Proof.
  intros Hb He wait Hw. unfold consumeOne, beginTx. rewrite Hb. cbn [emit wbind wret].
  rewrite He. fold wait. destruct (Z.ltb_spec 0 wait); [lia|]. reflexivity.
Qed.

(** C6 (as amended). When no handler is registered for the message,
    [handle] calls [MarkRetry] on the transaction with a delay of one
    minute (signalling [TriggerConsume] if it succeeds, logging if not),
    commits the transaction and never rolls it back, and returns the
    lookup error with a zero [retryAfter]: the error does reach the
    caller of [handle].  That caller is the goroutine [consumeOne]
    started: [consumeOne] itself has returned no error to the loop. *)
Theorem handle_unknown_queue a msg (err : error) (idleWait : Z) :
  handlerOf a msg = inr err ->
  handle a msg
  = ([EHandlerOf msg; EMarkRetry Tx msg Minute;
      match markRetry a Tx Minute with
      | Some e => ELogError e
      | None => ETriggerConsume
      end;
      ECommit] ++ fst (log_if_error (commit a)) ++ [ECancel],
     (0, Some err))
  /\ ~ In ERollback (fst (handle a msg))
  /\ (beginTx_err a = None -> earliest a = (msg, None) ->
      match msg with
      | Some m => Until (clock a) (ConsumeAt m)
      | None => idleWait
      end <= 0 ->
      snd (snd (consumeOne ConsumeAt mq a idleWait)) = None).
Proof.
  intros Hh.
  assert (Hrun : handle a msg
    = ([EHandlerOf msg; EMarkRetry Tx msg Minute;
        match markRetry a Tx Minute with
        | Some e => ELogError e
        | None => ETriggerConsume
        end;
        ECommit] ++ fst (log_if_error (commit a)) ++ [ECancel],
       (0, Some err))).
  { unfold handle, handle_body, handle_deferred, markFail.
    cbn [emit wbind]. rewrite Hh.
    change (0 <=? Minute) with true. cbn [wbind emit].
    destruct (markRetry a Tx Minute); destruct (commit a); reflexivity. }
  split; [exact Hrun|]. split.
  - rewrite Hrun. cbn [fst].
    destruct (markRetry a Tx Minute); destruct (commit a); cbn; intuition discriminate.
  - intros Hb He Hw. now rewrite (consumeOne_dispatches a msg idleWait Hb He Hw).
Qed.

(** ** The consumer loop *)

Lemma getWaitTime_positive :
  0 < fst (getWaitTime mq) /\ 0 < snd (getWaitTime mq).
Proof.
  unfold getWaitTime. cbn [fst snd].
  destruct (Z.leb_spec (IdleWait mq) 0); destruct (Z.leb_spec (ErrorWait mq) 0);
    unfold Minute, Second, Millisecond; lia.
Qed.

Lemma Consume_step_running f s :
  running s -> running (Consume_step ConsumeAt mq f s).
Proof.
  unfold running, Consume_step. intros [Hs Hd].
  destruct (getWaitTime mq) as [idleWait errorWait].
  destruct (point s) eqn:Hp; try congruence.
  - destruct (noQueues f (polls s)); cbn; split; discriminate.
  - destruct (consumeOne _ _ _ _) as [t1 r].
    destruct (consume_turn _ _ r) as [t2 [wait|]]; cbn; split; discriminate.
  - cbn; split; discriminate.
Qed.

Lemma Consume_run_running f (n : nat) s :
  running s -> running (Consume_run ConsumeAt mq f n s).
Proof.
  revert s. induction n as [|n IH]; intros s Hs; [exact Hs|].
  cbn [Consume_run]. apply IH, Consume_step_running, Hs.
Qed.

(** C7. An error returned by [consumeOne] does not end the loop.
    [consume] logs it and returns [errorWait]; [Consume] then waits on
    the timer of [errorWait] (which is positive) or the notification,
    and is back at the head of its loop, where it polls again.  The
    error has only chosen the wait; and however many steps are taken,
    [Consume] is never over. *)
Theorem consumer_loop_survives_errors f s (t : list Event) (w : Z) (e : error) :
  point s = AtConsumeOne ->
  consumeOne ConsumeAt mq (attempt f (attempts s)) (fst (getWaitTime mq))
  = (t, (w, Some e)) ->
  let errorWait := snd (getWaitTime mq) in
  0 < errorWait
  /\ Consume_run ConsumeAt mq f 1 s
     = mkRun (AtSelect errorWait) (polls s) (S (attempts s))
             (trace s ++ t ++ [ELogError e])
  /\ Consume_run ConsumeAt mq f 2 s
     = mkRun AtConsume (polls s) (S (attempts s))
             ((trace s ++ t ++ [ELogError e]) ++ [EWait errorWait])
  /\ Consume_run ConsumeAt mq f 3 s
     = mkRun (if noQueues f (polls s) then AtSelect (fst (getWaitTime mq))
              else AtConsumeOne)
             (S (polls s)) (S (attempts s))
             (((trace s ++ t ++ [ELogError e]) ++ [EWait errorWait]) ++ [ENoQueues])
  /\ forall n, point (Consume_run ConsumeAt mq f n s) <> Stopped.
Proof.
  intros Hp Hone errorWait.
  assert (Hpos : 0 < errorWait) by apply getWaitTime_positive.
  assert (H1 : Consume_step ConsumeAt mq f s
               = mkRun (AtSelect errorWait) (polls s) (S (attempts s))
                       (trace s ++ t ++ [ELogError e])).
  { unfold Consume_step, errorWait. destruct (getWaitTime mq) as [idleWait ew].
    cbn [fst snd] in *. rewrite Hp, Hone. reflexivity. }
  assert (H2 : Consume_step ConsumeAt mq f (Consume_step ConsumeAt mq f s)
               = mkRun AtConsume (polls s) (S (attempts s))
                       ((trace s ++ t ++ [ELogError e]) ++ [EWait errorWait])).
  { rewrite H1. unfold Consume_step at 1. fold errorWait.
    destruct (getWaitTime mq) as [idleWait ew]. cbn [point polls attempts trace].
    destruct (Z.ltb_spec 0 errorWait); [reflexivity | lia]. }
  split; [exact Hpos|]. split; [exact H1|]. split; [exact H2|]. split.
  - cbn [Consume_run]. rewrite H2. unfold Consume_step.
    destruct (getWaitTime mq) as [idleWait ew]. cbn [point polls attempts trace fst].
    destruct (noQueues f (polls s)); reflexivity.
  - intros n. apply Consume_run_running. unfold running. rewrite Hp.
    split; discriminate.
Qed.

End DispatcherFacts.

(** The two failure paths of [handle], on sample collaborators: a retry
    that commits, and a retry marked on the pool while the transaction
    is rolled back. *)
Example handle_retry_with_commit :
  handle (answers_with (fun _ => inl fails_softly) None) (Some 1%nat)
  = ([EHandlerOf (Some 1%nat); EHandler (Some 1%nat);
      EMarkRetry Tx (Some 1%nat) (5 * Second); ETriggerConsume; ECommit; ECancel],
     (5 * Second, Some "soft")).
Proof. reflexivity. Qed.

Example handle_retry_without_commit :
  handle (answers_with (fun _ => inl fails_hard) None) (Some 1%nat)
  = ([EHandlerOf (Some 1%nat); EHandler (Some 1%nat);
      EGo [EMarkRetry DB (Some 1%nat) Second; ETriggerConsume];
      ESleep (100 * Millisecond); ERollback; ECancel],
     (Second, Some "hard")).
Proof. reflexivity. Qed.

(** C1, counterexample. The handler returns [(5s, false, nil)] and the
    table then refuses [MarkSuccess]: the transaction is rolled back. *)
Lemma success_not_always_committed : ~ AsStated.success_always_commits.
Proof.
  intros H.
  destruct (H nat string mark_success_fails (Some 1%nat) succeeds_without_commit
              (5 * Second) false eq_refl eq_refl) as [_ Hcommit].
  change (fst (handle mark_success_fails (Some 1%nat)))
    with [EHandlerOf (Some 1%nat); EHandler (Some 1%nat); EMarkSuccess (Some 1%nat);
          ERollback (Message := nat) (error := string); ECancel] in Hcommit.
  cbn in Hcommit. intuition discriminate.
Qed.

Lemma handle_success_witness :
  handle all_well (Some 1%nat)
  = ([EHandlerOf (Some 1%nat); EHandler (Some 1%nat); EMarkSuccess (Some 1%nat);
      ECommit; ECancel],
     (5 * Second, None)).
Proof.
  destruct (handle_success all_well (Some 1%nat) succeeds_without_commit
              (5 * Second) false eq_refl eq_refl) as (Hok & _ & _).
  exact (Hok eq_refl).
Defined.

Lemma markFail_witness :
  markFail all_well Tx (Some 1%nat) (5 * Second)
  = ([EMarkRetry Tx (Some 1%nat) (5 * Second); ETriggerConsume], tt)
  /\ ~ In ETriggerConsume (fst (markFail all_well Tx (Some 1%nat) (-1))).
Proof.
  split.
  - destruct (markFail_reads_sign all_well Tx (Some 1%nat) (5 * Second))
      as (Hretry & _ & _).
    apply Hretry; [unfold Second, Millisecond; lia | reflexivity].
  - destruct (markFail_reads_sign all_well Tx (Some 1%nat) (-1)) as (_ & _ & Hgive).
    apply Hgive. lia.
Defined.

(** C6, counterexample. With no handler registered, [handle] returns the
    lookup error. *)
Lemma unknown_queue_is_surfaced : ~ AsStated.unknown_queue_not_surfaced.
Proof.
  intros H.
  destruct (H nat string no_handler (Some 1%nat) "unknown queue" eq_refl)
    as (_ & _ & Hnil).
  discriminate Hnil.
Qed.

Lemma handle_unknown_queue_witness :
  handle no_handler (Some 1%nat)
  = ([EHandlerOf (Some 1%nat); EMarkRetry Tx (Some 1%nat) Minute; ETriggerConsume;
      ECommit; ECancel],
     (0, Some "unknown queue")).
Proof.
  destruct (handle_unknown_queue (fun _ => 0) default_mq no_handler (Some 1%nat)
              "unknown queue" Minute eq_refl) as (Hrun & _ & _).
  exact Hrun.
Defined.

Lemma consumer_loop_witness :
  Consume_run (fun _ => 0) default_mq always_failing 2 (mkRun AtConsumeOne 1 0 [])
  = mkRun AtConsume 1 1
          [EBeginTx Minute; ECancel; ELogError "connection refused"; EWait Minute].
Proof.
  destruct (consumer_loop_survives_errors (fun _ => 0) default_mq always_failing
              (mkRun AtConsumeOne 1 0 []) [EBeginTx Minute; ECancel] 0
              "connection refused" eq_refl eq_refl) as (_ & _ & H2 & _).
  exact H2.
Defined.

(** * Further properties *)

(** ** [quote] *)

Lemma string_length_app (s t : string) :
  String.length (s +:+ t) = (String.length s + String.length t)%nat.
Proof. induction s as [|c s IH]; cbn; [reflexivity | now rewrite IH]. Qed.

Lemma count_byte_app (c : ascii) (s t : string) :
  count_byte c (s +:+ t) = (count_byte c s + count_byte c t)%nat.
Proof.
  induction s as [|d s IH]; cbn [String.append count_byte]; [reflexivity|].
  rewrite IH. lia.
Qed.

Lemma quote_unfold (s : string) : quote s = "'" +:+ escape s +:+ "'".
Proof. unfold quote. cbv zeta. now rewrite quote_body. Qed.

Lemma escape_strip_nul (s : string) : escape (strip_nul s) = escape s.
Proof.
  unfold escape. induction s as [|c s IH]; [reflexivity|].
  cbn [strip_nul map_bytes]. unfold escape_byte at 2.
  destruct (Ascii.eqb_spec c nul) as [->|Hn].
  - cbn. exact IH.
  - destruct (Ascii.eqb c squote) eqn:Hq;
      cbn [map_bytes]; unfold escape_byte at 1; rewrite Hq;
      [|apply Ascii.eqb_neq in Hn; rewrite Hn]; now rewrite IH.
Qed.

Lemma escape_counts (s : string) :
  count_byte nul (escape s) = O
  /\ count_byte squote (escape s) = (2 * count_byte squote s)%nat
  /\ (String.length (escape s) + count_byte nul s
      = String.length s + count_byte squote s)%nat.
Proof.
  unfold escape. induction s as [|c s (IHn & IHq & IHl)]; [now cbn|].
  cbn [map_bytes]. rewrite !count_byte_app, string_length_app, IHn, IHq.
  cbn [count_byte String.length].
  set (e := map_bytes escape_byte s) in *. unfold escape_byte.
  destruct (Ascii.eqb_spec c squote) as [->|Hq].
  - cbn. repeat split; lia.
  - destruct (Ascii.eqb_spec c nul) as [->|Hn].
    + cbn. repeat split; lia.
    + cbn. apply Ascii.eqb_neq in Hq, Hn. rewrite Hq, Hn. repeat split; lia.
Qed.

(** X1. A string quoted by [quote] is a literal the database reads to
    its end, and what it reads is the input without its NUL bytes: no
    input can close the literal early. *)
Theorem quote_reads_back (s : string) :
  unquote (quote s) = Some (strip_nul s).
Proof. exact (unquote_quote s). Qed.

(** X2. The output of [quote] holds no NUL byte and an even number of
    single quotes (two around, two for each one of the input); it is as
    long as the input, plus two, plus one for every single quote, minus
    one for every NUL byte. *)
Theorem quote_shape (s : string) :
  count_byte nul (quote s) = O
  /\ count_byte squote (quote s) = (2 + 2 * count_byte squote s)%nat
  /\ (String.length (quote s) + count_byte nul s
      = 2 + String.length s + count_byte squote s)%nat.
Proof.
  rewrite quote_unfold. destruct (escape_counts s) as (Hn & Hq & Hl).
  change ("'" +:+ escape s +:+ "'") with (String squote (escape s +:+ "'")).
  cbn [count_byte String.length]. rewrite !count_byte_app, string_length_app, Hn, Hq.
  cbn. repeat split; lia.
Qed.

(** X3. [quote] tells two strings apart exactly when they differ by
    more than NUL bytes. *)
Theorem quote_eq_iff (s t : string) :
  quote s = quote t <-> strip_nul s = strip_nul t.
Proof.
  split.
  - intros H. apply (f_equal unquote) in H. rewrite !unquote_quote in H.
    now inversion H.
  - intros H. rewrite !quote_unfold, <- (escape_strip_nul s), <- (escape_strip_nul t).
    now rewrite H.
Qed.

(** ** The marking operations *)

Section MarkingFacts.

Context {V : Type} {jsonb : JsonbInput}.
Implicit Types (w : World (V := V)) (m : StdMessage V) (how : Marking).

Lemma world_eta w : mkWorld (heap w) (tables w) = w.
Proof. now destruct w. Qed.

(** A marking operation whose statement runs. *)
Lemma mark_run how (table : stdTable) (now : Z) w (p : positive) m (rel : Relation) :
  heap w !! p = Some m ->
  tables w !! name table = Some rel ->
  Forall (fun r => id r = Id m -> -32768 <= try_count r < 32767) (rows rel) ->
  mark how table None now (StdMessagePtr p) w
  = Done None
      (mkWorld (heap w)
         (<[name table :=
              mkRelation
                (map (fun r => if id r =? Id m then marked how now r else r) (rows rel))
                (next_id rel) (locked rel)]> (tables w))).
Proof.
  intros Hp Hrel Hok.
  assert (Hs : Forall (fun r => id r = Id m -> smallint_ok (try_count r + 1) = true)
                      (rows rel)).
  { eapply List.Forall_impl; [|exact Hok]. cbn. intros r Hr Hid.
    apply smallint_ok_succ. specialize (Hr Hid). lia. }
  destruct how; unfold mark, MarkSuccess, MarkRetry, MarkGivenUp,
    bind, as_StdMessage, ret, load, Exec, run_stmt;
    rewrite Hp; cbn [stmt_table upd_table exec_stmt]; rewrite Hrel;
    cbn [mbind option_bind]; unfold exec_update;
    cbn [upd_set upd_where_id update_effect set_effect];
    try change (unquote (in_quotes statusDone)) with (Some statusDone);
    try change (unquote (in_quotes statusGivenUp)) with (Some statusGivenUp);
    cbn [mbind option_bind].
  - rewrite (rewrite_rows_map (Id m) _ (marked AsSuccess now)); [reflexivity|].
    eapply List.Forall_impl; [|exact Hs]. cbn. intros r Hr Hid. now rewrite (Hr Hid).
  - rewrite (rewrite_rows_map (Id m) _ (marked (AsRetry retryAfter) now)); [reflexivity|].
    eapply List.Forall_impl; [|exact Hs]. cbn. intros r Hr Hid. now rewrite (Hr Hid).
  - rewrite (rewrite_rows_map (Id m) _ (marked AsGivenUp now)); [reflexivity|].
    eapply List.Forall_impl; [|exact Hs]. cbn. intros r Hr Hid. now rewrite (Hr Hid).
Qed.

(** A marking operation whose statement does not run. *)
Lemma mark_fails how (table : stdTable) (text : string) (now : Z) w (p : positive) m :
  heap w !! p = Some m ->
  mark how table (Some text) now (StdMessagePtr p) w = Done (Some (SqlError text)) w.
Proof.
  intros Hp.
  destruct how; unfold mark, MarkSuccess, MarkRetry, MarkGivenUp,
    bind, as_StdMessage, ret, load, Exec; rewrite Hp; reflexivity.
Qed.

(** A marking operation on a row at the end of [smallint]. *)
Lemma mark_rejected how (table : stdTable) (now : Z) w (p : positive) m (rel : Relation) :
  heap w !! p = Some m ->
  tables w !! name table = Some rel ->
  Exists (fun r => id r = Id m /\ 32767 <= try_count r) (rows rel) ->
  mark how table None now (StdMessagePtr p) w = Done (Some (SqlError "rejected")) w.
Proof.
  intros Hp Hrel Hfull.
  assert (Hs : Exists (fun r => id r = Id m /\ smallint_ok (try_count r + 1) = false)
                      (rows rel)).
  { eapply List.Exists_impl; [|exact Hfull]. cbn. intros r [Hid Hr].
    split; [exact Hid|]. apply not_true_iff_false. rewrite smallint_ok_succ. lia. }
  destruct how; unfold mark, MarkSuccess, MarkRetry, MarkGivenUp,
    bind, as_StdMessage, ret, load, Exec, run_stmt;
    rewrite Hp; cbn [stmt_table upd_table exec_stmt]; rewrite Hrel;
    cbn [mbind option_bind]; unfold exec_update;
    cbn [upd_set upd_where_id update_effect set_effect];
    try change (unquote (in_quotes statusDone)) with (Some statusDone);
    try change (unquote (in_quotes statusGivenUp)) with (Some statusGivenUp);
    cbn [mbind option_bind];
    (rewrite rewrite_rows_fails; [reflexivity|]);
    (eapply List.Exists_impl; [|exact Hs]); cbn; intros r [Hid Hr];
    (split; [exact Hid|]); now rewrite Hr.
Qed.

(** X4. [MarkSuccess], when its statement is executed on rows whose
    [try_count] is below 32767, rewrites the rows whose [id] is the
    message's: [status] becomes "done", [retry_at] the current time,
    [try_count] grows by one; [id], [queue], [created_at] and [data]
    stay, as do the other rows, the other tables and the message in
    memory. *)
Theorem MarkSuccess_marks_done (table : stdTable) (now : Z) w (p : positive) m
    (rel : Relation) :
  heap w !! p = Some m ->
  tables w !! name table = Some rel ->
  Forall (fun r => id r = Id m -> -32768 <= try_count r < 32767) (rows rel) ->
  MarkSuccess table None now (StdMessagePtr p) w
  = Done None
      (mkWorld (heap w)
         (<[name table :=
              mkRelation
                (map (fun r =>
                        if id r =? Id m
                        then mkRow (id r) (queue r) "done" (created_at r)
                                   (try_count r + 1) (rfc3339Micro now) (data r)
                        else r)
                     (rows rel))
                (next_id rel) (locked rel)]> (tables w))).
Proof. intros Hp Hrel Hok. exact (mark_run AsSuccess table now w p m rel Hp Hrel Hok). Qed.

(** X5. [MarkGivenUp], when its statement is executed on rows whose
    [try_count] is below 32767, rewrites the rows whose [id] is the
    message's: [status] becomes "givenUp", [retry_at] the current time,
    [try_count] grows by one; nothing else changes. *)
Theorem MarkGivenUp_marks_given_up (table : stdTable) (now : Z) w (p : positive) m
    (rel : Relation) :
  heap w !! p = Some m ->
  tables w !! name table = Some rel ->
  Forall (fun r => id r = Id m -> -32768 <= try_count r < 32767) (rows rel) ->
  MarkGivenUp table None now (StdMessagePtr p) w
  = Done None
      (mkWorld (heap w)
         (<[name table :=
              mkRelation
                (map (fun r =>
                        if id r =? Id m
                        then mkRow (id r) (queue r) "givenUp" (created_at r)
                                   (try_count r + 1) (rfc3339Micro now) (data r)
                        else r)
                     (rows rel))
                (next_id rel) (locked rel)]> (tables w))).
Proof. intros Hp Hrel Hok. exact (mark_run AsGivenUp table now w p m rel Hp Hrel Hok). Qed.

(** X6. When [Exec] fails, because the driver reports a failure or
    because the table does not exist, each marking operation returns the
    error and leaves the database and the heap as they were. *)
Theorem mark_failure_changes_nothing how (table : stdTable) (now : Z)
    w (p : positive) m :
  heap w !! p = Some m ->
  (forall text,
     mark how table (Some text) now (StdMessagePtr p) w = Done (Some (SqlError text)) w)
  /\ (tables w !! name table = None ->
      exists err, mark how table None now (StdMessagePtr p) w = Done (Some err) w).
Proof.
  intros Hp. split.
  - intros text. now apply mark_fails with (m := m).
  - intros Hno. exists (SqlError "rejected").
    destruct how; unfold mark, MarkSuccess, MarkRetry, MarkGivenUp,
      bind, as_StdMessage, ret, load, Exec, run_stmt;
      rewrite Hp; cbn [stmt_table upd_table]; rewrite Hno; reflexivity.
Qed.

(** X7. A message whose row has been tried 32767 times can no longer be
    marked: [MarkSuccess], [MarkRetry] and [MarkGivenUp] all have their
    UPDATE rejected ([try_count] is a [smallint]), return the error and
    leave the row waiting as it was. *)
Theorem mark_rejected_at_smallint_max how (table : stdTable) (now : Z)
    w (p : positive) m (rel : Relation) :
  heap w !! p = Some m ->
  tables w !! name table = Some rel ->
  Exists (fun r => id r = Id m /\ 32767 <= try_count r) (rows rel) ->
  exists err, mark how table None now (StdMessagePtr p) w = Done (Some err) w.
Proof.
  intros Hp Hrel Hfull. exists (SqlError "rejected").
  exact (mark_rejected how table now w p m rel Hp Hrel Hfull).
Qed.

Lemma map_unless_id (k : Z) (f : Row -> Row) (l : list Row) :
  Forall (fun r => id r <> k) l ->
  map (fun r => if id r =? k then f r else r) l = l.
Proof.
  induction 1 as [|r l Hr _ IH]; [reflexivity|].
  cbn [map]. rewrite IH. destruct (Z.eqb_spec (id r) k); [contradiction | reflexivity].
Qed.

(** X8. Marking a message whose row is not in the table (it was never
    inserted, or it has been deleted) is not an error: the operation
    returns nil and nothing changes. *)
Theorem mark_without_row how (table : stdTable) (now : Z) w (p : positive) m
    (rel : Relation) :
  heap w !! p = Some m ->
  tables w !! name table = Some rel ->
  Forall (fun r => id r <> Id m) (rows rel) ->
  mark how table None now (StdMessagePtr p) w = Done None w.
Proof.
  intros Hp Hrel Hno.
  rewrite (mark_run how table now w p m rel Hp Hrel).
  - rewrite (map_unless_id (Id m) (marked how now) (rows rel) Hno).
    replace (mkRelation (rows rel) (next_id rel) (locked rel)) with rel by now destruct rel.
    rewrite (insert_id (tables w) (name table) rel Hrel). now rewrite world_eta.
  - eapply List.Forall_impl; [|exact Hno]. cbn. intros r Hr Hid. contradiction.
Qed.

Lemma marked_keeps how (now : Z) (r : Row) :
  id (marked how now r) = id r
  /\ queue (marked how now r) = queue r
  /\ created_at (marked how now r) = created_at r
  /\ data (marked how now r) = data r
  /\ try_count (marked how now r) = try_count r + 1
  /\ (settled r -> settled (marked how now r)).
Proof.
  destruct how; cbn; repeat split; auto; intros _; unfold settled; cbn; discriminate.
Qed.

(** X9. Whatever the marking operation, when its statement runs the
    table keeps its rows in place with their [id], [queue],
    [created_at] and [data], and the sequence of ids; the primary key
    stays a key; no [try_count] decreases; and a row that has left the
    waiting state does not come back to it. *)
Theorem mark_keeps_the_table how (table : stdTable) (now : Z) w (p : positive) m
    (rel : Relation) :
  heap w !! p = Some m ->
  tables w !! name table = Some rel ->
  Forall (fun r => id r = Id m -> -32768 <= try_count r < 32767) (rows rel) ->
  exists rel',
    mark how table None now (StdMessagePtr p) w
    = Done None (mkWorld (heap w) (<[name table := rel']> (tables w)))
    /\ map id (rows rel') = map id (rows rel)
    /\ map queue (rows rel') = map queue (rows rel)
    /\ map created_at (rows rel') = map created_at (rows rel)
    /\ map data (rows rel') = map data (rows rel)
    /\ next_id rel' = next_id rel
    /\ (keyed rel -> keyed rel')
    /\ Forall2 (fun r r' => try_count r <= try_count r' /\ (settled r -> settled r'))
               (rows rel) (rows rel').
Proof.
  intros Hp Hrel Hok. eexists.
  split; [exact (mark_run how table now w p m rel Hp Hrel Hok)|].
  clear Hok. cbn [rows next_id].
  assert (Hmap : forall (A : Type) (g : Row -> A),
            (forall r, g (marked how now r) = g r) ->
            map g (map (fun r => if id r =? Id m then marked how now r else r) (rows rel))
            = map g (rows rel)).
  { intros A g Hg. rewrite map_map. apply map_ext. intros r.
    destruct (id r =? Id m); [apply Hg | reflexivity]. }
  assert (Hid : map id (map (fun r => if id r =? Id m then marked how now r else r) (rows rel))
                = map id (rows rel))
    by (apply Hmap; intros r; apply marked_keeps).
  split; [exact Hid|].
  split; [apply Hmap; intros r; apply marked_keeps|].
  split; [apply Hmap; intros r; apply marked_keeps|].
  split; [apply Hmap; intros r; apply marked_keeps|].
  split; [reflexivity|]. split.
  - unfold keyed. cbn [rows next_id]. rewrite Hid. intros [Hnd Hlt]. split; [exact Hnd|].
    apply Forall_map. rewrite List.Forall_forall in *. intros r Hr.
    specialize (Hlt r Hr).
    destruct (id r =? Id m); [|exact Hlt].
    destruct (marked_keeps how now r) as (-> & _). exact Hlt.
  - clear Hmap Hid.
    induction (rows rel) as [|r l IH]; cbn [map]; [constructor|].
    constructor; [|exact IH].
    destruct (id r =? Id m).
    + destruct (marked_keeps how now r) as (_ & _ & _ & _ & -> & Hs). split; [lia | exact Hs].
    + split; [lia | auto].
Qed.

End MarkingFacts.

(** ** Producing *)

Section ProducingFacts.

Context {V : Type} {jsonb : JsonbInput}.
Implicit Types (w : World (V := V)) (m : StdMessage V) (how : Marking).

(** The row [ProduceMessage] inserts for [m] into [rel]. *)
Lemma ProduceMessage_inserts (json_Marshal : V -> marshaled) (table : stdTable)
    (now : Z) w (p : positive) m (jsonData : string) (rel : Relation) :
  heap w !! p = Some m ->
  jsonData_of json_Marshal (Data m) = inl jsonData ->
  tables w !! name table = Some rel ->
  smallint_ok (TryCount m) = true ->
  jsonb_accepts (strip_nul jsonData) = true ->
  ProduceMessage json_Marshal table None now (StdMessagePtr p) w
  = Done None
      (mkWorld (<[p := defaults_filled m now]> (heap w))
         (<[name table :=
              mkRelation
                (rows rel ++
                 [mkRow (next_id rel) (strip_nul (Queue m)) (strip_nul (Status m))
                        (rfc3339Micro (CreatedAt (defaults_filled m now))) (TryCount m)
                        (rfc3339Micro (RetryAt (defaults_filled m now)))
                        (strip_nul jsonData)])
                (next_id rel + 1) (locked rel)]> (tables w))).
Proof.
  intros Hp Hj Hrel Hsmall Hjson.
  rewrite (ProduceMessage_run json_Marshal table None now w p m jsonData Hp Hj).
  unfold Exec, run_stmt. cbn [tables stmt_table ins_table]. rewrite Hrel.
  cbn [mbind option_bind exec_stmt]. unfold exec_insert.
  cbn [ins_queue ins_data ins_status ins_created_at ins_try_count ins_retry_at].
  rewrite !unquote_quote. cbn [mbind option_bind]. rewrite Hsmall, Hjson. reflexivity.
Qed.

(** [Exec] returns, and does not touch the heap. *)
Lemma Exec_returns (fault : option string) (s : Stmt) w :
  exists res w', Exec fault s w = Done res w' /\ heap w' = heap w.
Proof.
  unfold Exec. destruct fault; [|destruct (run_stmt _ _)];
    eexists; eexists; split; reflexivity.
Qed.

(** X10. For a message whose payload is a byte slice or can be
    marshalled, the row [ProduceMessage] inserts, when the database
    accepts it ([TryCount] fits a [smallint], the payload reads as JSON),
    takes its [id] from the sequence, not from the message: the ids
    that were there stay, the new one is the next of the sequence, the
    primary key stays a key, the rows that were there are not touched,
    and the [Id] of the message in memory is not updated. *)
Theorem ProduceMessage_draws_next_id (json_Marshal : V -> marshaled)
    (table : stdTable) (now : Z) w (p : positive) m (jsonData : string)
    (rel : Relation) :
  heap w !! p = Some m ->
  jsonData_of json_Marshal (Data m) = inl jsonData ->
  tables w !! name table = Some rel ->
  smallint_ok (TryCount m) = true ->
  jsonb_accepts (strip_nul jsonData) = true ->
  keyed rel ->
  exists w' rel',
    ProduceMessage json_Marshal table None now (StdMessagePtr p) w = Done None w'
    /\ tables w' !! name table = Some rel'
    /\ map id (rows rel') = map id (rows rel) ++ [next_id rel]
    /\ next_id rel' = next_id rel + 1
    /\ keyed rel'
    /\ firstn (length (rows rel)) (rows rel') = rows rel
    /\ option_map Id (heap w' !! p) = Some (Id m).
Proof.
  intros Hp Hj Hrel Hsmall Hjson [Hnd Hlt]. eexists. eexists.
  split; [exact (ProduceMessage_inserts json_Marshal table now w p m jsonData rel
                   Hp Hj Hrel Hsmall Hjson)|].
  cbn [tables heap]. rewrite !lookup_insert_eq.
  split; [reflexivity|]. cbn [rows next_id].
  split; [now rewrite map_app|]. split; [reflexivity|]. split; [|split].
  - unfold keyed. cbn [rows next_id]. rewrite map_app. cbn [map id]. split.
    + apply NoDup_app. split; [exact Hnd|]. split.
      * intros k Hk Hin. apply list_elem_of_singleton in Hin. subst k.
        apply list_elem_of_In, in_map_iff in Hk. destruct Hk as (r & Hid & Hr).
        rewrite List.Forall_forall in Hlt. specialize (Hlt r Hr). lia.
      * apply NoDup_singleton.
    + apply Forall_app. split.
      * rewrite List.Forall_forall in *. intros r Hr. specialize (Hlt r Hr). lia.
      * constructor; [cbn; lia | constructor].
  - rewrite firstn_app, Nat.sub_diag, firstn_all. cbn. apply List.app_nil_r.
  - reflexivity.
Qed.

(** X11. When the database rejects the row (a [TryCount] beyond
    [smallint], a payload it does not read as JSON), [ProduceMessage]
    returns the error and the table is as it was, but the caller's
    message has had its timestamps filled. *)
Theorem ProduceMessage_rejected_row (json_Marshal : V -> marshaled)
    (table : stdTable) (now : Z) w (p : positive) m (jsonData : string)
    (rel : Relation) :
  heap w !! p = Some m ->
  jsonData_of json_Marshal (Data m) = inl jsonData ->
  tables w !! name table = Some rel ->
  smallint_ok (TryCount m) = false \/ jsonb_accepts (strip_nul jsonData) = false ->
  exists err,
    ProduceMessage json_Marshal table None now (StdMessagePtr p) w
    = Done (Some err) (mkWorld (<[p := defaults_filled m now]> (heap w)) (tables w)).
Proof.
  intros Hp Hj Hrel Hbad. exists (SqlError "rejected").
  rewrite (ProduceMessage_run json_Marshal table None now w p m jsonData Hp Hj).
  unfold Exec, run_stmt. cbn [tables stmt_table ins_table]. rewrite Hrel.
  cbn [mbind option_bind exec_stmt]. unfold exec_insert.
  cbn [ins_queue ins_data ins_status ins_created_at ins_try_count ins_retry_at].
  rewrite !unquote_quote. cbn [mbind option_bind].
  assert (Hc : smallint_ok (TryCount m) && jsonb_accepts (strip_nul jsonData) = false).
  { destruct Hbad as [-> | ->]; [reflexivity | apply andb_false_r]. }
  rewrite Hc. reflexivity.
Qed.

(** X12. Timestamps that are filled stay: for a message whose payload
    is a byte slice or can be marshalled, and a first reading of the
    clock that is not the zero instant, producing the same message a
    second time, at any reading of the clock and whether or not [Exec]
    fails, leaves the message in memory as the first call left it. *)
Theorem ProduceMessage_fills_once (json_Marshal : V -> marshaled)
    (table : stdTable) (fault fault' : option string) (now now' : Z)
    w (p : positive) m (jsonData : string) :
  heap w !! p = Some m ->
  jsonData_of json_Marshal (Data m) = inl jsonData ->
  now <> 0 ->
  exists res w1 res' w2,
    ProduceMessage json_Marshal table fault now (StdMessagePtr p) w = Done res w1
    /\ ProduceMessage json_Marshal table fault' now' (StdMessagePtr p) w1 = Done res' w2
    /\ heap w1 !! p = Some (defaults_filled m now)
    /\ heap w2 = heap w1.
Proof.
  intros Hp Hj Hnow.
  pose proof (ProduceMessage_run json_Marshal table fault now w p m jsonData Hp Hj) as H1.
  match type of H1 with
  | _ = Exec ?f ?s ?w0 => destruct (Exec_returns f s w0) as (res & w1 & Hrun & Hheap)
  end.
  rewrite Hrun in H1. cbn [heap] in Hheap.
  assert (Hp1 : heap w1 !! p = Some (defaults_filled m now))
    by (rewrite Hheap; apply lookup_insert_eq).
  assert (Hstay : defaults_filled (defaults_filled m now) now' = defaults_filled m now).
  { apply defaults_filled_nonzero; unfold defaults_filled, IsZero; cbn.
    - destruct (Z.eqb_spec (CreatedAt m) 0); apply Z.eqb_neq; assumption.
    - destruct (Z.eqb_spec (RetryAt m) 0); [|apply Z.eqb_neq; assumption].
      destruct (Z.eqb_spec (CreatedAt m) 0); apply Z.eqb_neq; assumption. }
  pose proof (ProduceMessage_run json_Marshal table fault' now' w1 p
                (defaults_filled m now) jsonData Hp1 Hj) as H2.
  rewrite Hstay in H2.
  match type of H2 with
  | _ = Exec ?f ?s ?w0 => destruct (Exec_returns f s w0) as (res' & w2 & Hrun' & Hheap')
  end.
  rewrite Hrun' in H2. cbn [heap] in Hheap'.
  exists res, w1, res', w2.
  split; [exact H1|]. split; [exact H2|]. split; [exact Hp1|].
  rewrite Hheap'. now apply insert_id.
Qed.


End ProducingFacts.

(** ** The claim statement and its cache *)

Lemma ascii_compare_spec (a b : ascii) :
  CompareSpec (a = b) (N_of_ascii a < N_of_ascii b)%N (N_of_ascii b < N_of_ascii a)%N
              (Ascii.compare a b).
Proof.
  unfold Ascii.compare. destruct (N.compare_spec (N_of_ascii a) (N_of_ascii b)) as [H|H|H];
    constructor; try assumption.
  rewrite <- (ascii_N_embedding a), <- (ascii_N_embedding b). now rewrite H.
Qed.

Lemma string_compare_trans (a b c : string) :
  String.compare a b <> Gt -> String.compare b c <> Gt -> String.compare a c <> Gt.
Proof.
  revert b c. induction a as [|x a IH]; intros b c.
  - destruct c; cbn; discriminate.
  - destruct b as [|y b]; [cbn; congruence|].
    destruct c as [|z c]; [cbn; congruence|].
    cbn [String.compare].
    destruct (ascii_compare_spec x y), (ascii_compare_spec y z), (ascii_compare_spec x z);
      subst; try congruence; try (intros; exfalso; lia); try discriminate.
    apply IH.
Qed.

Lemma leb_trans (a b c : string) :
  String.leb a b = true -> String.leb b c = true -> String.leb a c = true.
Proof.
  unfold String.leb. intros Hab Hbc.
  assert (H : String.compare a c <> Gt).
  { apply (string_compare_trans a b c).
    - destruct (String.compare a b); congruence.
    - destruct (String.compare b c); congruence. }
  destruct (String.compare a c); congruence.
Qed.

Lemma insert_sorted_perm (s : string) (l : list string) :
  Permutation (insert_sorted s l) (s :: l).
Proof.
  induction l as [|x l IH]; cbn; [reflexivity|].
  destruct (String.leb s x); [reflexivity|].
  rewrite IH. apply perm_swap.
Qed.

Lemma sort_Strings_perm (l : list string) : Permutation (sort_Strings l) l.
Proof.
  induction l as [|x l IH]; cbn; [reflexivity|].
  rewrite insert_sorted_perm. now constructor.
Qed.

Lemma insert_sorted_sorted (s : string) (l : list string) :
  StronglySorted (fun a b => String.leb a b = true) l ->
  StronglySorted (fun a b => String.leb a b = true) (insert_sorted s l).
Proof.
  induction 1 as [|x l Hl IH Hx]; cbn.
  - repeat constructor.
  - destruct (String.leb s x) eqn:Hsx.
    + constructor; [now constructor|]. constructor; [exact Hsx|].
      rewrite List.Forall_forall in *. intros y Hy. eapply leb_trans; eauto.
    + constructor; [exact IH|].
      rewrite List.Forall_forall in *. intros y Hy.
      apply insert_sorted_In in Hy. destruct Hy as [->|Hy]; [|auto].
      destruct (String.leb_total s x) as [H|H]; congruence.
Qed.

Lemma sort_Strings_sorted (l : list string) :
  StronglySorted (fun a b => String.leb a b = true) (sort_Strings l).
Proof.
  induction l as [|x l IH]; cbn; [constructor | now apply insert_sorted_sorted].
Qed.

(** Two sorted lists with the same elements are the same list. *)
Lemma sorted_perm_eq (l1 l2 : list string) :
  StronglySorted (fun a b => String.leb a b = true) l1 ->
  StronglySorted (fun a b => String.leb a b = true) l2 ->
  Permutation l1 l2 -> l1 = l2.
Proof.
  intros H1. revert l2. induction H1 as [|x l1 Hl1 IH Hx]; intros l2 H2 Hp.
  - now apply Permutation_nil in Hp.
  - destruct H2 as [|y l2 Hl2 Hy]; [apply Permutation_sym, Permutation_nil in Hp; discriminate|].
    assert (Hxy : x = y).
    { rewrite List.Forall_forall in Hx, Hy.
      assert (Hin1 : In x (y :: l2)) by (apply (Permutation_in _ Hp); now left).
      assert (Hin2 : In y (x :: l1)) by (apply (Permutation_in _ (Permutation_sym Hp)); now left).
      destruct Hin1 as [->|Hin1]; [reflexivity|].
      destruct Hin2 as [->|Hin2]; [reflexivity|].
      apply String.leb_antisym; auto. }
    subst y. f_equal. apply IH; [exact Hl2|]. now apply Permutation_cons_inv in Hp.
Qed.

(** X14. The claim statement does not depend on the order in which the
    queues are registered: the quoted names are sorted before they are
    joined. *)
Theorem claim_statement_ignores_order (table : stdTable) (qs qs' : list string) :
  Permutation qs qs' ->
  fst (getEarliestMessageSql (SetQueues table qs))
  = fst (getEarliestMessageSql (SetQueues table qs')).
Proof.
  intros Hp. rewrite !claim_query_fresh. f_equal.
  apply sorted_perm_eq; try apply sort_Strings_sorted.
  rewrite !sort_Strings_perm. now apply Permutation_map.
Qed.


(** ** From producing to claiming *)

Section ClaimingFacts.

Context {V : Type} {jsonb : JsonbInput}.
Implicit Types (w : World (V := V)) (m : StdMessage V).



(** X18. [EarliestMessage] never returns both a message and an error.
    When the driver reports no row, it returns neither and changes
    nothing; an error is passed on; a row comes back as a pointer to a
    cell that was not in the heap, so every message that was there is
    still there, unchanged.  In each case the adapter leaves with its
    cache set. *)
Theorem EarliestMessage_returns (table : stdTable) (answer : SelectStmt -> scanned) w :
  let q := fst (getEarliestMessageSql table) in
  exists res w',
    EarliestMessage table answer w = Done (snd (getEarliestMessageSql table), res) w'
    /\ earliestMessageSql (snd (getEarliestMessageSql table)) = Some q
    /\ match answer q with
       | NoRows => res = (None, None) /\ w' = w
       | ScanFailed text => res = (None, Some (SqlError text)) /\ w' = w
       | Scanned row =>
           exists p, res = (Some (StdMessagePtr p), None)
             /\ heap w !! p = None
             /\ heap w' !! p = Some row
             /\ (forall p' m, heap w !! p' = Some m -> heap w' !! p' = Some m)
             /\ tables w' = tables w
       end.
Proof.
  cbv zeta. unfold EarliestMessage.
  destruct (getEarliestMessageSql table) as [q table'] eqn:Hq. cbn [fst snd].
  assert (Hcache : earliestMessageSql table' = Some q).
  { unfold getEarliestMessageSql in Hq.
    destruct (earliestMessageSql table) eqn:Hc; inversion Hq; subst; [exact Hc | reflexivity]. }
  destruct (answer q) as [|text|row].
  - exists (None, None), w. repeat split; auto.
  - exists (None, Some (SqlError text)), w. repeat split; auto.
  - unfold bind, alloc, ret. eexists. eexists. split; [reflexivity|].
    split; [exact Hcache|].
    exists (fresh (dom (heap w))).
    assert (Hfresh : heap w !! fresh (dom (heap w)) = None)
      by (apply not_elem_of_dom, is_fresh).
    split; [reflexivity|]. split; [exact Hfresh|]. cbn [heap tables].
    split; [apply lookup_insert_eq|]. split; [|reflexivity].
    intros p' m Hp'. rewrite lookup_insert_ne; [exact Hp'|].
    intros <-. congruence.
Qed.

End ClaimingFacts.

(** ** The dispatcher, beyond success *)

Section DispatchingFacts.

Context {Message error : Type}.
Implicit Types (a : Answers (Message := Message) (error := error))
               (msg : option Message) (db : DBOrTx)
               (s : Run (Message := Message) (error := error))
               (f : Feed (Message := Message) (error := error)).

Variable ConsumeAt : Message -> Z.
Variable mq : SqlMQ.

(** Every answer the collaborators can give about a delay [r]. *)
Ltac case_answers a r :=
  destruct (0 <=? r);
  destruct (markRetry a Tx r); destruct (markRetry a DB r);
  destruct (markGivenUp a Tx); destruct (markGivenUp a DB);
  destruct (markSuccess a); destruct (commit a); destruct (rollback a).

(** X19. When the handler fails and allows the commit, [handle] marks
    the failure on the transaction (retry or give up, by the sign of
    [retryAfter]), commits without ever rolling back, and returns the
    handler's [retryAfter] and error; an error of the commit is only
    logged. *)
Theorem handle_failure_commits a msg (handler : Handler) (retryAfter : Z) (err : error) :
  handlerOf a msg = inl handler ->
  handler msg = (retryAfter, true, Some err) ->
  handle a msg
  = ([EHandlerOf msg; EHandler msg] ++ fst (markFail a Tx msg retryAfter)
       ++ [ECommit] ++ fst (log_if_error (commit a)) ++ [ECancel],
     (retryAfter, Some err)).
Proof.
  intros Hh Hr. unfold handle, handle_body, handle_deferred.
  cbn [emit wbind]. rewrite Hh. cbn [wbind emit]. rewrite Hr.
  destruct (markFail a Tx msg retryAfter) as [t []].
  destruct (commit a); cbn; rewrite <- ?List.app_assoc; reflexivity.
Qed.

(** X20. When the handler fails and forbids the commit, [handle] marks
    the failure on the pool, in a goroutine of its own, sleeps 100 ms,
    and rolls the transaction back: nothing is marked through the
    transaction and nothing is committed.  It returns the handler's
    [retryAfter] and error; an error of the rollback is only logged. *)
Theorem handle_failure_rolls_back a msg (handler : Handler) (retryAfter : Z)
    (err : error) :
  handlerOf a msg = inl handler ->
  handler msg = (retryAfter, false, Some err) ->
  handle a msg
  = ([EHandlerOf msg; EHandler msg; EGo (fst (markFail a DB msg retryAfter));
      ESleep (100 * Millisecond); ERollback]
       ++ fst (log_if_error (rollback a)) ++ [ECancel],
     (retryAfter, Some err)).
Proof.
  intros Hh Hr. unfold handle, handle_body, handle_deferred.
  cbn [emit wbind]. rewrite Hh. cbn [wbind emit]. rewrite Hr.
  destruct (rollback a); reflexivity.
Qed.

Lemma handle_counts a msg :
  (times is_handler (fst (handle a msg)) <= 1)%nat
  /\ times is_mark (fst (handle a msg)) = 1%nat
  /\ (times is_commit (fst (handle a msg)) + times is_rollback (fst (handle a msg)) = 1)%nat
  /\ times is_cancel (fst (handle a msg)) = 1%nat
  /\ times is_begin (fst (handle a msg)) = 0%nat
  /\ last (fst (handle a msg)) = Some ECancel.
Proof.
  unfold handle, handle_body, handle_deferred, markFail, log_if_error,
    wbind, emit, wret.
  destruct (handlerOf a msg) as [handler|err0].
  - destruct (handler msg) as [[r c] [e|]]; destruct c;
      case_answers a r; cbn; repeat split; first [lia | reflexivity].
  - change (0 <=? Minute) with true.
    destruct (markRetry a Tx Minute); destruct (commit a); cbn; repeat split;
      first [lia | reflexivity].
Qed.


Lemma times_cons (p : Event (Message := Message) (error := error) -> bool)
    (e e' : Event) (t : list Event) :
  times p (e :: e' :: t) = (times p [e] + times p (e' :: t))%nat.
Proof.
  unfold times, everything. cbn [flat_map].
  rewrite List.app_nil_r, List.filter_app, List.length_app. reflexivity.
Qed.

Lemma times_go (p : Event (Message := Message) (error := error) -> bool)
    (body : list Event) :
  times p [EGo body] = ((if p (EGo body) then 1 else 0) + times p body)%nat.
Proof.
  unfold times, everything. cbn [flat_map with_body].
  rewrite List.app_nil_r. cbn [List.filter].
  destruct (p (EGo body)); reflexivity.
Qed.

(** X22. [consumeOne] begins one transaction and calls [cancel] exactly
    once; if the transaction was opened it is ended exactly once, by
    [consumeOne] itself or by the [handle] it started, and if it was not
    opened nothing is committed or rolled back.  At most one handler is
    called and at most one marking call is made. *)
Theorem consumeOne_ends_what_it_begins a (idleWait : Z) :
  let t := fst (consumeOne ConsumeAt mq a idleWait) in
  times is_begin t = 1%nat
  /\ times is_cancel t = 1%nat
  /\ (times is_commit t + times is_rollback t
      = if is_nil (beginTx_err a) then 1 else 0)%nat
  /\ (times is_handler t <= 1)%nat
  /\ (times is_mark t <= 1)%nat.
Proof.
  cbv zeta. unfold consumeOne, beginTx, log_if_error, wbind, emit, wret.
  destruct (beginTx_err a) as [e|]; [cbn; repeat split; lia|].
  destruct (earliest a) as [msg err].
  destruct (_ || _).
  - destruct (rollback a); cbn; repeat split; lia.
  - cbn [fst is_nil List.app].
    destruct (handle_counts a msg) as (H1 & H2 & H3 & H4 & H5 & _).
    rewrite !times_cons, !times_go.
    generalize dependent (fst (handle a msg)). intros h H1 H2 H3 H4 H5.
    cbn. repeat split; lia.
Qed.

Lemma Until_nonpositive (now t : Z) : Until now t <= 0 <-> t <= now.
Proof. unfold Until, Sub, minDuration, maxDuration. lia. Qed.

(** X23. [consumeOne] does not dispatch early: with a positive
    [idleWait], a handler is called or a mark is made only if the
    transaction was opened and [EarliestMessage] returned, without
    error, a message whose [ConsumeAt] is not after the clock. *)
Theorem consumeOne_never_early a (idleWait : Z) :
  0 < idleWait ->
  let t := fst (consumeOne ConsumeAt mq a idleWait) in
  (0 < times is_handler t + times is_mark t)%nat ->
  beginTx_err a = None
  /\ exists m, earliest a = (Some m, None) /\ ConsumeAt m <= clock a.
Proof.
  intros Hidle. cbv zeta. unfold consumeOne, beginTx, log_if_error, wbind, emit, wret.
  destruct (beginTx_err a) as [e|]; [cbn; lia|].
  destruct (earliest a) as [[m|] [err|]]; cbn [is_nil negb orb].
  - rewrite orb_true_r. destruct (rollback a); cbn; lia.
  - rewrite orb_false_r. destruct (Z.ltb_spec 0 (Until (clock a) (ConsumeAt m))) as [Hw|Hw].
    + destruct (rollback a); cbn; lia.
    + intros _. split; [reflexivity|]. exists m. split; [reflexivity|].
      now apply Until_nonpositive.
  - rewrite orb_true_r. destruct (rollback a); cbn; lia.
  - destruct (Z.ltb_spec 0 idleWait); [|lia]. destruct (rollback a); cbn; lia.
Qed.

(** X24. When [consumeOne] does not dispatch, it leaves no transaction
    open.  If the transaction cannot be opened, it cancels the context
    and returns the error with a zero wait.  If nothing is due (no
    message, a message still in the future, or an error of
    [EarliestMessage]), it rolls back, cancels, and returns the wait and
    the error as they are. *)
Theorem consumeOne_without_dispatch a (idleWait : Z) :
  (forall e, beginTx_err a = Some e ->
     consumeOne ConsumeAt mq a idleWait
     = ([EBeginTx (if TxTimeout mq <=? 0 then Minute else TxTimeout mq); ECancel],
        (0, Some e)))
  /\ (forall msg err,
        beginTx_err a = None ->
        earliest a = (msg, err) ->
        let wait := match msg with
                    | Some m => Until (clock a) (ConsumeAt m)
                    | None => idleWait
                    end in
        0 < wait \/ err <> None ->
        consumeOne ConsumeAt mq a idleWait
        = ([EBeginTx (if TxTimeout mq <=? 0 then Minute else TxTimeout mq);
            EEarliestMessage; ERollback]
             ++ fst (log_if_error (rollback a)) ++ [ECancel],
           (wait, err))).
Proof.
  split.
  - intros e He. unfold consumeOne, beginTx. rewrite He. reflexivity.
  - intros msg err Hb He wait Hw. unfold consumeOne, beginTx. rewrite Hb.
    cbn [emit wbind wret]. rewrite He. fold wait.
    assert (Hc : (0 <? wait) || negb (is_nil err) = true).
    { destruct Hw as [Hw|Hw]; [apply Z.ltb_lt in Hw; now rewrite Hw|].
      destruct err; [apply orb_true_r | congruence]. }
    rewrite Hc. destruct (rollback a); reflexivity.
Qed.

End DispatchingFacts.

(** ** The loop, over whole runs *)

Section LoopFacts.

Context {Message error : Type}.
Implicit Types (a : Answers (Message := Message) (error := error))
               (s : Run (Message := Message) (error := error))
               (f : Feed (Message := Message) (error := error))
               (t : list (Event (Message := Message) (error := error))).

Variable ConsumeAt : Message -> Z.
Variable mq : SqlMQ.

Lemma Consume_run_S f (n : nat) s :
  Consume_run ConsumeAt mq f (S n) s
  = Consume_step ConsumeAt mq f (Consume_run ConsumeAt mq f n s).
Proof.
  revert s. induction n as [|n IH]; intros s; [reflexivity|].
  change (Consume_run ConsumeAt mq f (S (S n)) s)
    with (Consume_run ConsumeAt mq f (S n) (Consume_step ConsumeAt mq f s)).
  rewrite IH. reflexivity.
Qed.

Lemma waits_app t t' : waits (t ++ t') = waits t ++ waits t'.
Proof.
  induction t as [|e t IH]; [reflexivity|].
  destruct e; cbn [List.app waits]; rewrite IH; reflexivity.
Qed.

Lemma times_app (p : Event (Message := Message) (error := error) -> bool) t t' :
  times p (t ++ t') = (times p t + times p t')%nat.
Proof.
  unfold times, everything.
  rewrite List.flat_map_app, List.filter_app, List.length_app. reflexivity.
Qed.

Lemma consumeOne_waits a (idleWait : Z) :
  waits (fst (consumeOne ConsumeAt mq a idleWait)) = [].
Proof.
  unfold consumeOne, beginTx, log_if_error, wbind, emit, wret.
  destruct (beginTx_err a); [reflexivity|].
  destruct (earliest a) as [msg err]. destruct (_ || _); [|reflexivity].
  destruct (rollback a); reflexivity.
Qed.

Lemma consume_turn_waits (idleWait errorWait : Z) (r : Z * option error) :
  let c := consume_turn (Message := Message) idleWait errorWait r in
  waits (fst c) = []
  /\ times is_begin (fst c) = 0%nat
  /\ forall d, snd c = Some d ->
       0 < idleWait -> 0 < errorWait -> 0 < d <= Z.max idleWait errorWait.
Proof.
  cbv zeta. unfold consume_turn. destruct r as [wait [e|]].
  - repeat split; cbn in *; inversion H; subst; lia.
  - destruct (Z.ltb_spec 0 wait); repeat split; cbn in *; try discriminate.
    + inversion H0; subst. destruct (Z.ltb_spec idleWait wait); lia.
    + inversion H0; subst. destruct (Z.ltb_spec idleWait wait); lia.
Qed.

(** X25. Every wait of [Consume] is positive and no longer than the
    larger of [idleWait] and [errorWait], whatever the messages'
    timestamps and whatever fails: the loop never sleeps longer than
    that before it polls again. *)
Theorem Consume_waits_are_bounded f (n : nat) :
  Forall (fun d => 0 < d <= Z.max (fst (getWaitTime mq)) (snd (getWaitTime mq)))
         (waits (trace (Consume ConsumeAt mq f n))).
Proof.
  destruct (getWaitTime_positive mq) as [Hi He].
  set (P := fun d => 0 < d <= Z.max (fst (getWaitTime mq)) (snd (getWaitTime mq))).
  assert (Hinv : forall k, Forall P (waits (trace (Consume ConsumeAt mq f k)))
                           /\ forall d, point (Consume ConsumeAt mq f k) = AtSelect d -> P d).
  { induction k as [|k [IHw IHp]].
    - split; [constructor | discriminate].
    - unfold Consume in *. rewrite Consume_run_S.
      set (s := Consume_run ConsumeAt mq f k (mkRun AtStart 0 0 [])) in *.
      unfold Consume_step. destruct (getWaitTime mq) as [idleWait errorWait] eqn:Hg.
      cbn [fst snd] in *.
      destruct (point s) as [| | |d|] eqn:Hpt.
      + destruct (validate f); cbn [trace point]; rewrite waits_app;
          (split; [|discriminate]); apply Forall_app; split; auto;
          destruct (0 <? CleanInterval mq); constructor.
      + destruct (noQueues f (polls s)); cbn [trace point]; rewrite waits_app;
          (split; [apply Forall_app; split; [auto | constructor]|]).
        * intros d [= <-]. unfold P. lia.
        * discriminate.
      + pose proof (consumeOne_waits (attempt f (attempts s)) idleWait) as Hw.
        destruct (consumeOne ConsumeAt mq (attempt f (attempts s)) idleWait) as [t1 r].
        destruct (consume_turn_waits idleWait errorWait r) as (Hw2 & _ & Hd).
        cbv zeta in *.
        destruct (consume_turn idleWait errorWait r) as [t2 ret].
        cbn [fst snd trace point] in *. rewrite !waits_app, Hw, Hw2, !List.app_nil_r.
        split; [exact IHw|]. destruct ret as [d|]; [|discriminate].
        intros d' [= <-]. apply Hd; auto.
      + cbn [trace point]. rewrite waits_app. split; [|discriminate].
        apply Forall_app. split; [exact IHw|].
        destruct (Z.ltb_spec 0 d); cbn [waits]; constructor; [|constructor].
        now apply IHp.
      + split; [assumption | rewrite Hpt; discriminate]. }
  apply Hinv.
Qed.

Lemma Consume_run_stopped f (n : nat) s :
  point s = Stopped -> Consume_run ConsumeAt mq f n s = s.
Proof.
  intros Hs. induction n as [|n IH]; [reflexivity|].
  rewrite Consume_run_S, IH. unfold Consume_step.
  destruct (getWaitTime mq). now rewrite Hs.
Qed.

(** X26. [Consume] ends only by the panic on an invalid configuration:
    if [validate] fails, it panics at once, before any call to the
    database, and nothing follows; if [validate] succeeds, it is inside
    its loop after every number of steps. *)
Theorem Consume_stops_only_on_invalid f (n : nat) :
  (forall e, validate f = Some e ->
     Consume ConsumeAt mq f (S n) = mkRun Stopped 0 0 [EValidate; EPanic e])
  /\ (validate f = None -> running (Consume ConsumeAt mq f (S n))).
Proof.
  unfold Consume. cbn [Consume_run]. split.
  - intros e He. rewrite Consume_run_stopped.
    + unfold Consume_step. destruct (getWaitTime mq). cbn. now rewrite He.
    + unfold Consume_step. destruct (getWaitTime mq). cbn. now rewrite He.
  - intros Hv. apply Consume_run_running.
    unfold Consume_step, running. destruct (getWaitTime mq). cbn. rewrite Hv.
    cbn. split; discriminate.
Qed.

(** X27. While no queue is registered, [Consume] never opens a
    transaction and never calls [consumeOne]: it only waits [idleWait]
    between two looks at the queues. *)
Theorem Consume_idles_without_queues f (n : nat) :
  (forall k, noQueues f k = true) ->
  attempts (Consume ConsumeAt mq f n) = 0%nat
  /\ times is_begin (trace (Consume ConsumeAt mq f n)) = 0%nat
  /\ Forall (fun d => d = fst (getWaitTime mq)) (waits (trace (Consume ConsumeAt mq f n))).
Proof.
  intros Hnq.
  assert (Hinv : forall k,
            let s := Consume ConsumeAt mq f k in
            point s <> AtConsumeOne
            /\ attempts s = 0%nat
            /\ times is_begin (trace s) = 0%nat
            /\ Forall (fun d => d = fst (getWaitTime mq)) (waits (trace s))
            /\ forall d, point s = AtSelect d -> d = fst (getWaitTime mq)).
  { induction k as [|k (IH1 & IH2 & IH3 & IH4 & IH5)]; cbv zeta in *.
    - repeat split; try discriminate. constructor.
    - unfold Consume in *. rewrite Consume_run_S.
      set (s := Consume_run ConsumeAt mq f k (mkRun AtStart 0 0 [])) in *.
      unfold Consume_step. destruct (getWaitTime mq) as [idleWait errorWait] eqn:Hg.
      cbn [fst snd] in *.
      destruct (point s) as [| | |d|] eqn:Hpt; [| |congruence| |].
      + destruct (validate f); cbn [trace point attempts];
          rewrite times_app, waits_app, IH3;
          (repeat split; try discriminate; auto);
          try (apply Forall_app; split; auto);
          destruct (0 <? CleanInterval mq); cbn; try reflexivity; constructor.
      + rewrite Hnq. cbn [trace point attempts]. rewrite times_app, waits_app, IH3.
        repeat split; try discriminate; auto.
        * apply Forall_app. split; [auto | constructor].
        * intros d [= <-]. reflexivity.
      + cbn [trace point attempts]. rewrite times_app, waits_app, IH3.
        repeat split; try discriminate; auto.
        * destruct (0 <? d); reflexivity.
        * apply Forall_app. split; [auto|].
          destruct (0 <? d); cbn [waits]; constructor; [|constructor].
          now apply IH5.
      + repeat split; auto; rewrite Hpt; discriminate. }
  destruct (Hinv n) as (_ & H2 & H3 & H4 & _). repeat split; assumption.
Qed.

(** X28. While every [consumeOne] dispatches (it returns no error and a
    wait that is not positive), [Consume] does not wait and does not
    look at the queues again: after the start and the first look, every
    step is one more [consumeOne]. *)
Theorem Consume_drains_without_waiting f (n : nat) :
  validate f = None ->
  noQueues f 0%nat = false ->
  (forall k, exists wait,
      snd (consumeOne ConsumeAt mq (attempt f k) (fst (getWaitTime mq))) = (wait, None)
      /\ wait <= 0) ->
  let s := Consume ConsumeAt mq f (S (S n)) in
  point s = AtConsumeOne
  /\ attempts s = n
  /\ polls s = 1%nat
  /\ waits (trace s) = [].
Proof.
  intros Hv Hq Hd. cbv zeta. induction n as [|n (IH1 & IH2 & IH3 & IH4)].
  - unfold Consume. cbn [Consume_run]. unfold Consume_step.
    destruct (getWaitTime mq) as [idleWait errorWait]. cbn [point].
    rewrite Hv. cbn [point polls attempts trace]. rewrite Hq.
    cbn [point polls attempts trace]. repeat split; try reflexivity.
    rewrite !waits_app. destruct (0 <? CleanInterval mq); reflexivity.
  - unfold Consume in *. rewrite Consume_run_S.
    set (s := Consume_run ConsumeAt mq f (S (S n)) (mkRun AtStart 0 0 [])) in *.
    unfold Consume_step. destruct (Hd (attempts s)) as (wait & Hr & Hw).
    pose proof (consumeOne_waits (attempt f (attempts s)) (fst (getWaitTime mq))) as Hcw.
    destruct (getWaitTime mq) as [idleWait errorWait]. cbn [fst] in *.
    rewrite IH1.
    destruct (consumeOne ConsumeAt mq (attempt f (attempts s)) idleWait) as [t1 r].
    cbn [fst snd] in *. subst r. unfold consume_turn.
    destruct (Z.ltb_spec 0 wait); [lia|].
    unfold wret. cbn [point polls attempts trace]. rewrite !waits_app, IH4, Hcw.
    repeat split; auto.
Qed.

End LoopFacts.

(** ** Instances *)

Lemma MarkSuccess_witness :
  exists w', MarkSuccess (jsonb := two_documents) (mkStdTable "mq" [] None) None
                         5000000 (StdMessagePtr 1) a_world = Done None w'
    /\ tables w' !! "mq"
       = Some (mkRelation [mkRow 7 "email" "done" 100 1 5000 "{}";
                           mkRow 8 "email" "" 101 0 101 "{}"] 9 []).
Proof.
  eexists. split.
  - apply (MarkSuccess_marks_done (jsonb := two_documents) (mkStdTable "mq" [] None)
             5000000 a_world 1%positive a_message
             (mkRelation [a_row; mkRow 8 "email" "" 101 0 101 "{}"] 9 [])
             eq_refl eq_refl).
    repeat constructor; cbn; lia.
  - reflexivity.
Defined.

Lemma MarkGivenUp_witness :
  exists w', MarkGivenUp (jsonb := two_documents) (mkStdTable "mq" [] None) None
                         5000000 (StdMessagePtr 1) a_world = Done None w'
    /\ tables w' !! "mq"
       = Some (mkRelation [mkRow 7 "email" "givenUp" 100 1 5000 "{}";
                           mkRow 8 "email" "" 101 0 101 "{}"] 9 []).
Proof.
  eexists. split.
  - apply (MarkGivenUp_marks_given_up (jsonb := two_documents) (mkStdTable "mq" [] None)
             5000000 a_world 1%positive a_message
             (mkRelation [a_row; mkRow 8 "email" "" 101 0 101 "{}"] 9 [])
             eq_refl eq_refl).
    repeat constructor; cbn; lia.
  - reflexivity.
Defined.

Lemma mark_failure_witness :
  mark (jsonb := two_documents) AsSuccess (mkStdTable "mq" [] None)
       (Some "connection lost") 5000000 (StdMessagePtr 1) a_world
  = Done (Some (SqlError "connection lost")) a_world.
Proof.
  destruct (mark_failure_changes_nothing (jsonb := two_documents) AsSuccess
              (mkStdTable "mq" [] None) 5000000 a_world 1%positive a_message eq_refl)
    as (Hfault & _).
  exact (Hfault "connection lost").
Defined.

Lemma mark_rejected_witness :
  exists err,
    mark (jsonb := two_documents) AsSuccess (mkStdTable "mq" [] None) None 5000000
         (StdMessagePtr 1) a_full_world
    = Done (Some err) a_full_world.
Proof.
  apply (mark_rejected_at_smallint_max (jsonb := two_documents) AsSuccess
           (mkStdTable "mq" [] None) 5000000 a_full_world 1%positive a_message
           (mkRelation [mkRow 7 "email" "" 100 32767 100 "{}"] 9 [])
           eq_refl eq_refl).
  left. cbn. split; [reflexivity | lia].
Defined.

Lemma mark_without_row_witness :
  mark (jsonb := two_documents) (AsRetry 0) (mkStdTable "mq" [] None) None 5000000
       (StdMessagePtr 2) a_value_world
  = Done None a_value_world.
Proof.
  apply (mark_without_row (jsonb := two_documents) (AsRetry 0) (mkStdTable "mq" [] None)
           5000000 a_value_world 2%positive a_value_message (mkRelation [] 1 [])
           eq_refl eq_refl).
  constructor.
Defined.

Lemma mark_keeps_the_table_witness :
  exists rel',
    mark (jsonb := two_documents) AsGivenUp (mkStdTable "mq" [] None) None 5000000
         (StdMessagePtr 1) a_world
    = Done None (mkWorld (heap a_world) (<["mq" := rel']> (tables a_world)))
    /\ map id (rows rel') = [7; 8].
Proof.
  destruct (mark_keeps_the_table (jsonb := two_documents) AsGivenUp
              (mkStdTable "mq" [] None) 5000000 a_world 1%positive a_message
              (mkRelation [a_row; mkRow 8 "email" "" 101 0 101 "{}"] 9 [])
              eq_refl eq_refl)
    as (rel' & Hrun & Hid & _).
  - repeat constructor; cbn; lia.
  - exists rel'. split; [exact Hrun | exact Hid].
Defined.

Lemma ProduceMessage_draws_next_id_witness :
  exists w' rel',
    ProduceMessage (jsonb := two_documents) encodes (mkStdTable "mq" [] None) None
                   1234567 (StdMessagePtr 1) a_world = Done None w'
    /\ tables w' !! "mq" = Some rel'
    /\ map id (rows rel') = [7; 8; 9].
Proof.
  destruct (ProduceMessage_draws_next_id (jsonb := two_documents) encodes
              (mkStdTable "mq" [] None) 1234567 a_world 1%positive a_message "{}"
              (mkRelation [a_row; mkRow 8 "email" "" 101 0 101 "{}"] 9 [])
              eq_refl eq_refl eq_refl eq_refl eq_refl)
    as (w' & rel' & Hrun & Hrel & Hid & _).
  - split.
    + cbn. apply (bool_decide_unpack _). reflexivity.
    + repeat constructor; cbn; lia.
  - exists w', rel'. repeat split; assumption.
Defined.

Lemma ProduceMessage_fills_once_witness :
  exists res w1 res' w2,
    ProduceMessage (jsonb := two_documents) encodes (mkStdTable "mq" [] None) None
                   1234567 (StdMessagePtr 1) a_world = Done res w1
    /\ ProduceMessage (jsonb := two_documents) encodes (mkStdTable "mq" [] None) None
                      9999999 (StdMessagePtr 1) w1 = Done res' w2
    /\ heap w2 = heap w1.
Proof.
  destruct (ProduceMessage_fills_once (jsonb := two_documents) encodes
              (mkStdTable "mq" [] None) None None 1234567 9999999 a_world
              1%positive a_message "{}" eq_refl eq_refl)
    as (res & w1 & res' & w2 & H1 & H2 & _ & H4).
  - lia.
  - exists res, w1, res', w2. repeat split; assumption.
Defined.

Lemma ProduceMessage_rejected_row_witness :
  exists err,
    ProduceMessage (jsonb := two_documents) encodes (mkStdTable "mq" [] None) None
                   1234567 (StdMessagePtr 3) a_garbled_world
    = Done (Some err)
        (mkWorld {[ 3%positive :=
                      mkStdMessage 0 "email" (Bytes "{not json") "" 1234567 0 1234567 ]}
                 (tables a_garbled_world)).
Proof.
  destruct (ProduceMessage_rejected_row (jsonb := two_documents) encodes
              (mkStdTable "mq" [] None) 1234567 a_garbled_world 3%positive
              a_garbled_message "{not json" (mkRelation [] 1 [])
              eq_refl eq_refl eq_refl (or_intror eq_refl)) as (err & Hrun).
  exists err. rewrite Hrun. reflexivity.
Defined.

Lemma claim_statement_ignores_order_witness :
  fst (getEarliestMessageSql (SetQueues (mkStdTable "mq" [] None) ["b"; "a"]))
  = fst (getEarliestMessageSql (SetQueues (mkStdTable "mq" [] None) ["a"; "b"])).
Proof.
  apply (claim_statement_ignores_order (mkStdTable "mq" [] None) ["b"; "a"] ["a"; "b"]).
  apply perm_swap.
Defined.


Lemma handle_failure_commits_witness :
  handle (answers_with (fun _ => inl fails_softly) None) (Some 1%nat)
  = ([EHandlerOf (Some 1%nat); EHandler (Some 1%nat);
      EMarkRetry Tx (Some 1%nat) (5 * Second); ETriggerConsume; ECommit; ECancel],
     (5 * Second, Some "soft")).
Proof.
  rewrite (handle_failure_commits (answers_with (fun _ => inl fails_softly) None)
             (Some 1%nat) fails_softly (5 * Second) "soft" eq_refl eq_refl).
  reflexivity.
Defined.

Lemma handle_failure_rolls_back_witness :
  handle (answers_with (fun _ => inl fails_hard) None) (Some 1%nat)
  = ([EHandlerOf (Some 1%nat); EHandler (Some 1%nat);
      EGo [EMarkRetry DB (Some 1%nat) Second; ETriggerConsume];
      ESleep (100 * Millisecond); ERollback; ECancel],
     (Second, Some "hard")).
Proof.
  rewrite (handle_failure_rolls_back (answers_with (fun _ => inl fails_hard) None)
             (Some 1%nat) fails_hard Second "hard" eq_refl eq_refl).
  reflexivity.
Defined.

Lemma consumeOne_never_early_witness :
  beginTx_err all_well = None
  /\ exists m, earliest all_well = (Some m, None) /\ 0 <= clock all_well.
Proof.
  destruct (consumeOne_never_early (fun _ => 0) default_mq all_well Minute)
    as (Hb & m & He & Hdue).
  - unfold Minute, Second, Millisecond. lia.
  - vm_compute. lia.
  - split; [exact Hb|]. exists m. split; [exact He | exact Hdue].
Defined.

Lemma Consume_idles_witness :
  attempts (Consume (fun _ => 0) default_mq never_a_queue 7) = 0%nat
  /\ times is_begin (trace (Consume (fun _ => 0) default_mq never_a_queue 7)) = 0%nat.
Proof.
  destruct (Consume_idles_without_queues (fun _ => 0) default_mq never_a_queue 7)
    as (H1 & H2 & _).
  - intros k. reflexivity.
  - split; assumption.
Defined.

Lemma Consume_drains_witness :
  point (Consume (fun _ => 0) default_mq always_ready 7) = AtConsumeOne
  /\ attempts (Consume (fun _ => 0) default_mq always_ready 7) = 5%nat
  /\ waits (trace (Consume (fun _ => 0) default_mq always_ready 7)) = [].
Proof.
  destruct (Consume_drains_without_waiting (fun _ => 0) default_mq always_ready 5)
    as (H1 & H2 & _ & H4).
  - reflexivity.
  - reflexivity.
  - intros k. exists (-1000). split; [reflexivity | lia].
  - repeat split; assumption.
Defined.
